(** * notifier: the acquisition / dedup / notify pipeline

    A shallow embedding of [src/main.py] and [src/models.py].

    - Text is a sequence of Unicode code points ([list N]): the same
      representation serves Python [str] values and the strings of the
      JavaScript snippet evaluated in the page.
    - The listing table is a finite map keyed by the unique column [cl_id].
    - Python code that raises, catches and mutates is written in a small
      state-and-exception monad over a [World]: the committed table, the
      open session, the scripted behaviour of the environment (pages,
      lookups, commits, mail submission) and the trace of observable events.
    - [str.format] is a scan of the template, so that what the formatting
      of [HTML_EMAIL_TEMPLATE] does is computed from its text.
    - The module namespace of [main.py] is an explicit map [G]: the global
      name lookup of Python is part of the semantics of [process_listings]. *)

From Stdlib Require Import ZArith Ascii String.
From stdpp Require Import gmap strings list.

Open Scope string_scope.
Open Scope Z_scope.
Open Scope list_scope.

(** ** Text *)

Abbreviation ustr := (list N).

(** [U s] is the text whose code points are the character codes of the
    literal [s]. *)
Definition U (s : string) : ustr :=
  map N_of_ascii (list_ascii_of_string s).

(** ** models.py *)

Module models.

(** [class db_listing_entry(Base)], lines 159-176.  The surrogate key [id]
    is assigned by the database and never read by the pipeline; it is left
    out.  [notified] has [default=False]. *)
Record db_listing_entry : Type := mk_listing {
  link : ustr;
  title : ustr;
  cl_id : ustr;
  screenshot_path : ustr;
  time_posted : ustr;
  location : ustr;
  time_scraped : ustr;
  notified : bool
}.

(** The fields of [EmailConfig] and [Config] the pipeline reads. *)
Record EmailConfig : Type := mk_email {
  enabled : bool
}.

Record Config : Type := mk_config {
  urls : list ustr;
  email : EmailConfig;
  combine_notifications : bool
}.

End models.
Import models.

#[global] Instance db_listing_entry_eq_dec : EqDecision db_listing_entry.
Proof. solve_decision. Defined.

(** The assignment [existing.notified = True] of main.py line 362. *)
Definition set_notified (r : db_listing_entry) : db_listing_entry :=
  mk_listing (link r) (title r) (cl_id r) (screenshot_path r)
             (time_posted r) (location r) (time_scraped r) true.

(** ** Exceptions *)

Inductive exn : Type :=
| NameError (name : string)
| KeyError (key : ustr)
| ValueError
| IndexError
| ArgumentError
| SQLAlchemyError
| DatabaseError
| PlaywrightTimeoutError
| SMTPException
| PlainException
| KeyboardInterrupt.

(** [except Exception] catches everything but [KeyboardInterrupt]. *)
Definition is_Exception (e : exn) : bool :=
  match e with KeyboardInterrupt => false | _ => true end.

(** [except SQLAlchemyError] ([ArgumentError] is one of its subclasses). *)
Definition is_SQLAlchemyError (e : exn) : bool :=
  match e with SQLAlchemyError | ArgumentError => true | _ => false end.

Inductive outcome (A : Type) : Type :=
| Return (a : A)
| Raised (e : exn).
Arguments Return {A} a.
Arguments Raised {A} e.

(** ** Observable events *)

Inductive LogMsg : Type :=
| NewListing (t : ustr)                       (* main.py 359 *)
| ErrorProcessingListing (t : ustr) (e : exn) (* main.py 364 *)
| ErrorSendingNotification (e : exn)          (* main.py 333 *)
| ErrorSendingNotifications (e : exn)         (* main.py 376 *)
| ErrorInProcessListings (e : exn)            (* main.py 379 *)
| SessionDatabaseError (e : exn)              (* models.py 189 *)
| SessionUnexpectedError (e : exn)            (* models.py 193 *)
| BrowserError (e : exn)                      (* main.py 136 *)
| TimeoutOnAttempt (attempt : Z)              (* main.py 468 *)
| DatabaseErrorWhileProcessing                (* main.py 472 *)
| ShuttingDown                                (* main.py 490 *)
| CriticalDatabaseError                       (* main.py 493 *)
| CriticalError (e : exn).                    (* main.py 496 *)

(** What [send_email] did with one call. *)
Inductive SendStatus : Type := Disabled | Sent | Failed.

Inductive Event : Type :=
| EvAttempt (url : ustr) (retry : nat)  (* one run of the [with get_browser()] body *)
| EvAdd (l : db_listing_entry)          (* session.add(listing) *)
| EvSetNotified (k : ustr)              (* existing.notified = True *)
| EvCommit (ok : bool)                  (* session.commit() *)
| EvRollback                            (* session.rollback() *)
| EvSendEmail (batch : list db_listing_entry) (s : SendStatus)
                                        (* send_email(subject, html, config) *)
| EvRandomSleep (lo hi : Z)             (* random_sleep(lo, hi) *)
| EvCycleSleep                          (* time.sleep(sleep_seconds), line 487 *)
| EvLog (m : LogMsg).

(** ** The environment *)

(** What one run of the [with get_browser() as page] body yields up to and
    including [scrape_listings] (which never raises, lines 237-242). *)
Inductive PageOutcome : Type :=
| Scraped (listings : list db_listing_entry)
| NavTimeout        (* PlaywrightTimeoutError from page.goto *)
| NavFailed         (* no response / status >= 400 / browser start-up *)
| Interrupted.      (* KeyboardInterrupt *)

(** [store] is the committed table; [session] the view of the open
    transaction (rows read, added and changed through the session object);
    the four scripts give the outcome of the successive page loads, lookups
    that reach the database, commits and mail submissions (an exhausted
    script means: interrupted, succeeds, succeeds, succeeds); [trace] lists
    the events so far, the oldest first. *)
Record World : Type := mk_world {
  store : gmap ustr db_listing_entry;
  session : gmap ustr db_listing_entry;
  page_script : list PageOutcome;
  lookup_script : list bool;
  commit_script : list bool;
  smtp_script : list bool;
  trace : list Event
}.

(** ** The monad of Python computations *)

Definition py (A : Type) : Type := World -> World * outcome A.

Definition ret {A} (a : A) : py A := fun w => (w, Return a).

Definition raise {A} (e : exn) : py A := fun w => (w, Raised e).

Definition bind {A B} (m : py A) (k : A -> py B) : py B :=
  fun w =>
    match m w with
    | (w', Return a) => k a w'
    | (w', Raised e) => (w', Raised e)
    end.

(** [try: m  finally: f]. *)
Definition try_finally {A} (m : py A) (f : py unit) : py A :=
  fun w =>
    match m w with
    | (w', r) =>
        match f w' with
        | (w'', Return _) => (w'', r)
        | (w'', Raised e) => (w'', Raised e)
        end
    end.

(** [try: m  except ...: h e]: [h e = None] when no clause matches [e]. *)
Definition try_except {A} (m : py A) (h : exn -> option (py A)) : py A :=
  fun w =>
    match m w with
    | (w', Return a) => (w', Return a)
    | (w', Raised e) =>
        match h e with
        | Some k => k w'
        | None => (w', Raised e)
        end
    end.

Declare Scope py_scope.
Delimit Scope py_scope with py.
Notation "'let*' x ':=' m 'in' k" := (bind m (fun x => k))
  (at level 10, x name, m at level 100, k at level 200) : py_scope.
Open Scope py_scope.

Definition emit (ev : Event) : py unit :=
  fun w => (mk_world (store w) (session w) (page_script w) (lookup_script w) (commit_script w)
                     (smtp_script w) (trace w ++ [ev]), Return tt).

Definition log (m : LogMsg) : py unit := emit (EvLog m).

(** main.py 72-75: the interval, not the drawn value, is recorded. *)
Definition random_sleep (min_seconds max_seconds : Z) : py unit :=
  emit (EvRandomSleep min_seconds max_seconds).

(** ** main.py: the extraction of one listing element, lines 205-232 *)

Fixpoint starts_with (p s : ustr) : bool :=
  match p, s with
  | [], _ => true
  | _ :: _, [] => false
  | a :: p', b :: s' => if N.eqb a b then starts_with p' s' else false
  end.

(** [s.split(sep)] for a non-empty [sep], in JavaScript and in Python alike:
    the pieces between the successive occurrences of [sep], scanning from
    the left.  [skip] counts the characters of a matched separator still to
    pass over; [cur] is the current piece, reversed. *)
Fixpoint split_from (sep : ustr) (skip : nat) (cur : ustr) (s : ustr) : list ustr :=
  match s with
  | [] => [rev cur]
  | c :: s' =>
      match skip with
      | S k => split_from sep k cur s'
      | O =>
          if starts_with sep s
          then rev cur :: split_from sep (length sep - 1) [] s'
          else split_from sep O (c :: cur) s'
      end
  end.

Definition split (sep s : ustr) : list ustr := split_from sep O [] s.

(** White space and line terminators of ECMAScript, removed by [trim]. *)
Definition is_js_space (c : N) : bool :=
  existsb (N.eqb c)
    [9; 10; 11; 12; 13; 32; 160; 5760; 8232; 8233; 8239; 8287; 12288; 65279]%N
  || ((8192 <=? c) && (c <=? 8202))%N.

Fixpoint trim_start (s : ustr) : ustr :=
  match s with
  | c :: s' => if is_js_space c then trim_start s' else s
  | [] => []
  end.

Definition trim (s : ustr) : ustr := rev (trim_start (rev (trim_start s))).

(** The separator of line 214, as Python reads the source file (UTF-8):
    the bytes C3 82 C2 B7 are the two characters U+00C2 U+00B7. *)
Definition SEPARATOR : ustr := [194; 183]%N.

(** The middle dot U+00B7. *)
Definition MIDDLE_DOT : N := 183%N.

(** What the snippet reads of an element: [.posting-title] with its text
    and [href], and the text of [.meta]; [None] where [querySelector] finds
    nothing. *)
Record Element : Type := mk_element {
  posting_title : option (ustr * ustr);
  meta : option ustr
}.

Record listing_data : Type := mk_listing_data {
  ld_title : ustr;
  ld_link : ustr;
  ld_posted_time : ustr;
  ld_location : ustr
}.

(** Line 214: [const [posted_time, location] = text.split(SEPARATOR)].
    The first piece always exists; the second is [undefined] when the
    separator does not occur. *)
Definition meta_fields (text : ustr) : ustr * option ustr :=
  match split SEPARATOR text with
  | p :: l :: _ => (p, Some l)
  | p :: [] => (p, None)
  | [] => ([], None)
  end.

(** Lines 211-220.  [None]: the snippet throws a [TypeError] before it
    reaches [resolve] (a property of [null] or of [undefined] is read), so
    no value comes back for the element. *)
Definition evaluate_listing (el : Element) : option listing_data :=
  match meta el with
  | None => None
  | Some text =>
      let '(posted_time, location) := meta_fields text in
      match posting_title el with
      | None => None
      | Some (title_text, href) =>
          match location with
          | None => None
          | Some loc =>
              Some (mk_listing_data title_text href (trim posted_time) (trim loc))
          end
      end
  end.

(** [s.removesuffix(suffix)]. *)
Definition removesuffix (suffix s : ustr) : ustr :=
  if starts_with (rev suffix) (rev s)
  then take (length s - length suffix) s
  else s.

(** Lines 224-232: the record built from the data of one element. *)
Definition make_listing (d : listing_data) (timestamp : ustr) : db_listing_entry :=
  mk_listing (ld_link d) (ld_title d)
             (removesuffix (U ".html") (List.last (split (U "/") (ld_link d)) []))
             [] (ld_posted_time d) (ld_location d) timestamp false.

(** ** The session (SQLAlchemy), at the level of transactions

    Reads and writes go to the view of the open transaction; a query
    flushes pending rows first, so it sees the rows added earlier in the
    same transaction.  A lookup and a commit are the operations that can
    fail: a failed lookup raises and leaves the view as it is, a commit
    either publishes the whole view or leaves the table as it was. *)

Definition set_session (v : gmap ustr db_listing_entry) : py unit :=
  fun w => (mk_world (store w) v (page_script w) (lookup_script w) (commit_script w)
                     (smtp_script w) (trace w), Return tt).

Definition get_session : py (gmap ustr db_listing_entry) :=
  fun w => (w, Return (session w)).

(** [sessionmaker(bind=engine)()]: a new session sees the committed table. *)
Definition open_session : py unit :=
  fun w => set_session (store w) w.

(** [session.close()]: whatever was not committed is dropped. *)
Definition session_close : py unit :=
  fun w => set_session (store w) w.

Definition session_add (l : db_listing_entry) : py unit :=
  let* v := get_session in
  let* _ := set_session (<[cl_id l := l]> v) in
  emit (EvAdd l).

(** [existing.notified = True] on the row the session holds under [k]. *)
Definition mark_notified (k : ustr) : py unit :=
  let* v := get_session in
  let* _ := set_session (alter set_notified k v) in
  emit (EvSetNotified k).

Definition session_commit : py unit :=
  fun w =>
    let ok := match commit_script w with b :: _ => b | [] => true end in
    let w' := mk_world (if ok then session w else store w) (session w)
                       (page_script w) (lookup_script w) (tail (commit_script w))
                       (smtp_script w) (trace w ++ [EvCommit ok]) in
    (w', if ok then Return tt else Raised SQLAlchemyError).

Definition session_rollback : py unit :=
  fun w => (mk_world (store w) (store w) (page_script w) (lookup_script w) (commit_script w)
                     (smtp_script w) (trace w ++ [EvRollback]), Return tt).

(** ** Global names of main.py *)

(** What a module-level name is bound to, as far as [session.query] cares. *)
Inductive pyobj : Type :=
| MappedClass      (* a class returned by [get_db] *)
| OtherObject.

(** The names bound at module level in main.py: its imports (lines 2-20),
    [logger], the constants (34-66) and the functions.  No builtin is called
    [db] either. *)
Definition main_module_names : list string :=
  [ "sync_playwright"; "PlaywrightTimeoutError"; "MIMEText"; "MIMEMultipart";
    "smtplib"; "ssl"; "html2text"; "random"; "time"; "datetime"; "argparse";
    "json"; "logging"; "Path"; "contextmanager"; "List"; "Optional"; "Dict";
    "Any"; "select"; "or_"; "get_engine"; "Config"; "get_db"; "Session";
    "init_db"; "session_scope"; "DatabaseError"; "logger";
    "PAGE_LOAD_TIMEOUT"; "MAX_RETRIES"; "DEFAULT_CONFIG_PATH";
    "MIN_WAIT_TIME"; "MAX_WAIT_TIME"; "SMTP_MAX_RETRIES"; "SMTP_TIMEOUT";
    "USER_AGENTS"; "HTML_EMAIL_TEMPLATE"; "get_random_user_agent";
    "random_sleep"; "get_browser"; "simulate_human_behavior";
    "handle_dialog"; "scrape_listings"; "load_config";
    "format_listing_for_email"; "send_email"; "send_notification";
    "send_error_notification"; "process_listings"; "main" ].

Definition main_globals : gmap string pyobj :=
  list_to_map (map (fun n => (n, OtherObject)) main_module_names).

Arguments main_globals : simpl never.

(** A free name of a function body is looked up in the module namespace. *)
Definition load_global (G : gmap string pyobj) (name : string) : py pyobj :=
  match G !! name with
  | Some o => ret o
  | None => raise (NameError name)
  end.

(** ** [str.format]

    [template.format(name=value, ...)] with string values: literal text is copied,
    [{{] and [}}] stand for one brace, and a replacement field runs from a
    single [{] to its closing [}].  The field name ends at the first [!] or
    [:]; what follows a [:] is the format spec, in which braces nest.  The
    part of the name before the first [.] or [[] selects the argument: a
    positional one when it is empty or a number, a keyword otherwise. *)

Definition LF : N := 10.
Definition QUOTE : N := 34.
Definition LBRACE : N := 123.
Definition RBRACE : N := 125.

Fixpoint text_eqb (a b : ustr) : bool :=
  match a, b with
  | [], [] => true
  | x :: a', y :: b' => (x =? y)%N && text_eqb a' b'
  | _, _ => false
  end.

Fixpoint lookup_keyword (kwargs : list (ustr * ustr)) (name : ustr) : option ustr :=
  match kwargs with
  | [] => None
  | (k, v) :: rest => if text_eqb k name then Some v else lookup_keyword rest name
  end.

(** The argument name of a field name: up to the first [.] or [[]. *)
Fixpoint arg_name (field_name : ustr) : ustr :=
  match field_name with
  | [] => []
  | c :: rest => if ((c =? 46) || (c =? 91))%N then [] else c :: arg_name rest
  end.

Definition is_decimal (s : ustr) : bool :=
  forallb (fun c => (48 <=? c)%N && (c <=? 57)%N) s.

(** The text a field is replaced by.  No positional argument is passed, and
    the one keyword of main.py is used plainly: a keyword that is found is
    inserted as it is when the field has no attribute, index, conversion or
    format spec (any of these on a found keyword is outside what is
    modelled, and stands as [ValueError]). *)
Definition render_field (kwargs : list (ustr * ustr))
    (field_name : ustr) (plain : bool) : exn + ustr :=
  let first := arg_name field_name in
  if is_decimal first then inl IndexError
  else match lookup_keyword kwargs first with
       | None => inl (KeyError first)
       | Some v =>
           if plain && (length first =? length field_name)%nat
           then inr v else inl ValueError
       end.

Inductive ScanState : Type :=
| InText                                   (* literal text *)
| AfterOpen                                (* just after a [{] *)
| AfterClose                               (* just after a [}] in literal text *)
| InName (name : ustr) (bracket : bool)    (* in a field name, maybe inside [[..]] *)
| InConversion (name : ustr) (seen : nat)  (* after the [!] of a field *)
| InSpec (name : ustr) (depth : nat).      (* in a format spec *)

(** The scan of the template, character by character; [out] is the text
    produced so far.  Each field is rendered when its closing brace is
    reached, before the scan goes on. *)
Fixpoint scan_format (kwargs : list (ustr * ustr)) (st : ScanState)
    (template out : ustr) : exn + ustr :=
  match template with
  | [] =>
      match st with
      | InText => inr out
      | _ => inl ValueError
      end
  | c :: rest =>
      let field_name_step (name : ustr) (bracket : bool) :=
        if bracket then
          scan_format kwargs (InName (name ++ [c]) (negb (c =? 93)%N)) rest out
        else if (c =? RBRACE)%N then
          match render_field kwargs name true with
          | inl e => inl e
          | inr v => scan_format kwargs InText rest (out ++ v)
          end
        else if (c =? 58)%N then scan_format kwargs (InSpec name 0) rest out
        else if (c =? 33)%N then scan_format kwargs (InConversion name 0) rest out
        else if (c =? LBRACE)%N then inl ValueError
        else scan_format kwargs (InName (name ++ [c]) (c =? 91)%N) rest out in
      match st with
      | InText =>
          if (c =? LBRACE)%N then scan_format kwargs AfterOpen rest out
          else if (c =? RBRACE)%N then scan_format kwargs AfterClose rest out
          else scan_format kwargs InText rest (out ++ [c])
      | AfterOpen =>
          if (c =? LBRACE)%N then scan_format kwargs InText rest (out ++ [LBRACE])
          else field_name_step [] false
      | AfterClose =>
          if (c =? RBRACE)%N then scan_format kwargs InText rest (out ++ [RBRACE])
          else inl ValueError
      | InName name bracket => field_name_step name bracket
      | InConversion name seen =>
          match seen with
          | O => if (c =? RBRACE)%N then inl ValueError
                 else scan_format kwargs (InConversion name 1) rest out
          | _ =>
              if (c =? RBRACE)%N then
                match render_field kwargs name false with
                | inl e => inl e
                | inr v => scan_format kwargs InText rest (out ++ v)
                end
              else if (c =? 58)%N then scan_format kwargs (InSpec name 0) rest out
              else inl ValueError
          end
      | InSpec name depth =>
          if (c =? LBRACE)%N then scan_format kwargs (InSpec name (S depth)) rest out
          else if (c =? RBRACE)%N then
            match depth with
            | O =>
                match render_field kwargs name false with
                | inl e => inl e
                | inr v => scan_format kwargs InText rest (out ++ v)
                end
            | S d => scan_format kwargs (InSpec name d) rest out
            end
          else scan_format kwargs (InSpec name depth) rest out
      end
  end.

Definition str_format (template : ustr) (kwargs : list (ustr * ustr)) : py ustr :=
  match scan_format kwargs InText template [] with
  | inr s => ret s
  | inl e => raise e
  end.

(** [HTML_EMAIL_TEMPLATE], lines 48-66, line by line (the literal opens
    with a line feed). *)
Definition HTML_EMAIL_TEMPLATE : ustr :=
  concat (map (fun line => line ++ [LF])
    [ [];
      U "<html>";
      U "    <head>";
      U "        <style>";
      U "            body { font-family: Arial, sans-serif; }";
      U "            .listing { margin-bottom: 20px; padding: 10px; border: 1px solid #ddd; border-radius: 5px; }";
      U "            a { color: #0066cc; text-decoration: none; }";
      U "            a:hover { text-decoration: underline; }";
      U "        </style>";
      U "    </head>";
      U "    <body>";
      U "        <h2>New Free Items Found on Craigslist</h2>";
      U "        {listings_html}";
      U "        <p style=" ++ [QUOTE] ++ U "color: #666; font-size: 12px;"
        ++ [QUOTE] ++ U ">";
      U "            This is an automated notification from your Craigslist scraper.";
      U "        </p>";
      U "    </body>";
      U "</html>" ]).

(** ** main.py: notification *)

(** [send_email], lines 285-319, as one step: nothing is sent when mail is
    disabled; otherwise the submission (with its own SMTP retries) succeeds
    or ends in an exception that is logged and re-raised (317-319).  [batch]
    are the listings the message was formatted from. *)
Definition send_email (batch : list db_listing_entry) (config : Config) : py unit :=
  if negb (enabled (email config)) then emit (EvSendEmail batch Disabled)
  else
    fun w =>
      let ok := match smtp_script w with b :: _ => b | [] => true end in
      let w' := mk_world (store w) (session w) (page_script w) (lookup_script w) (commit_script w)
                         (tail (smtp_script w))
                         (trace w ++ [EvSendEmail batch (if ok then Sent else Failed)]) in
      (w', if ok then Return tt else Raised SMTPException).

(** [format_listing_for_email], lines 271-283: an f-string over four
    fields of the listing. *)
Definition format_listing_for_email (listing : db_listing_entry) : ustr :=
  [LF] ++ U "        <div class=" ++ [QUOTE] ++ U "listing" ++ [QUOTE] ++ U ">"
  ++ [LF] ++ U "            <h3><a href=" ++ [QUOTE] ++ link listing ++ [QUOTE]
  ++ U ">" ++ title listing ++ U "</a></h3>"
  ++ [LF] ++ U "            <p>Location: " ++ location listing ++ U "</p>"
  ++ [LF] ++ U "            <p>Posted: " ++ time_posted listing ++ U "</p>"
  ++ [LF] ++ U "        </div>"
  ++ [LF] ++ U "        ".

(** [send_notification], lines 321-333.  The argument of [format] is
    evaluated before the call, and the subject (line 330) is built after
    it. *)
Definition send_notification (listings : list db_listing_entry) (config : Config)
  : py unit :=
  match listings with
  | [] => ret tt
  | _ =>
      try_except
        (let listings_html := concat (map format_listing_for_email listings) in
         let* html_content :=
           str_format HTML_EMAIL_TEMPLATE [(U "listings_html", listings_html)] in
         send_email listings config)
        (fun e => if is_Exception e
                  then Some (log (ErrorSendingNotification e))
                  else None)
  end.

Arguments HTML_EMAIL_TEMPLATE : simpl never.
Arguments send_notification : simpl never.

(** ** main.py: process_listings *)

(** [new_listings] holds references to objects of the session: an object
    is named by the key under which the session holds it. *)
Definition deref (refs : list ustr) : py (list db_listing_entry) :=
  let* v := get_session in
  ret (omap (fun k => v !! k) refs).

(** The next outcome of a lookup that reaches the database. *)
Definition next_lookup : py bool :=
  fun w =>
    (mk_world (store w) (session w) (page_script w) (tail (lookup_script w))
              (commit_script w) (smtp_script w) (trace w),
     Return (hd true (lookup_script w))).

(** Line 355: [session.query(db).filter_by(cl_id=...).first()].  The name
    [db] is evaluated first; a lookup the database fails raises a
    [SQLAlchemyError]. *)
Definition query_first (G : gmap string pyobj) (k : ustr)
  : py (option db_listing_entry) :=
  let* cls := load_global G "db" in
  match cls with
  | MappedClass =>
      let* ok := next_lookup in
      if ok then let* v := get_session in ret (v !! k)
      else raise SQLAlchemyError
  | OtherObject => raise ArgumentError
  end.

(** Lines 355-362, the body of the per-record [try]. *)
Definition merge_listing (G : gmap string pyobj) (listing : db_listing_entry)
    (new_listings : list ustr) : py (list ustr) :=
  let* existing := query_first G (cl_id listing) in
  match existing with
  | None =>
      let* _ := session_add listing in
      let* _ := log (NewListing (title listing)) in
      ret (new_listings ++ [cl_id listing])
  | Some row =>
      if negb (notified row) then
        let* _ := mark_notified (cl_id listing) in
        ret (new_listings ++ [cl_id listing])
      else ret new_listings
  end.

(** Lines 353-365, the loop with its per-record handler. *)
Fixpoint merge_loop (G : gmap string pyobj) (listings : list db_listing_entry)
    (new_listings : list ustr) : py (list ustr) :=
  match listings with
  | [] => ret new_listings
  | listing :: rest =>
      let* nl :=
        try_except (merge_listing G listing new_listings)
          (fun e => if is_Exception e
                    then Some (let* _ := log (ErrorProcessingListing (title listing) e) in
                               ret new_listings)
                    else None) in
      merge_loop G rest nl
  end.

(** Lines 373-374: one notification per listing. *)
Fixpoint notify_each (refs : list ustr) (config : Config) : py unit :=
  match refs with
  | [] => ret tt
  | k :: rest =>
      let* one := deref [k] in
      let* _ := send_notification one config in
      notify_each rest config
  end.

(** Lines 367-376: commit, then dispatch. *)
Definition commit_and_notify (new_listings : list ustr) (config : Config) : py unit :=
  match new_listings with
  | [] => ret tt
  | _ =>
      let* _ := session_commit in
      try_except
        (if combine_notifications config
         then let* batch := deref new_listings in send_notification batch config
         else notify_each new_listings config)
        (fun e => if is_Exception e
                  then Some (log (ErrorSendingNotifications e))
                  else None)
  end.

(** [process_listings], lines 349-381.  [G] is the namespace of the module
    the function is defined in. *)
Definition process_listings (G : gmap string pyobj)
    (listings : list db_listing_entry) (config : Config) : py unit :=
  try_except
    (let* new_listings := merge_loop G listings [] in
     commit_and_notify new_listings config)
    (fun e => if is_Exception e
              then Some (let* _ := log (ErrorInProcessListings e) in
                         let* _ := session_rollback in
                         raise e)
              else None).

(** ** models.py: session_scope, lines 181-197 *)

Definition session_scope {A} (body : py A) : py A :=
  let* _ := open_session in
  try_finally
    (try_except
       (let* a := body in
        let* _ := session_commit in
        ret a)
       (fun e =>
          if is_SQLAlchemyError e then
            Some (let* _ := log (SessionDatabaseError e) in
                  let* _ := session_rollback in
                  raise DatabaseError)
          else if is_Exception e then
            Some (let* _ := log (SessionUnexpectedError e) in
                  let* _ := session_rollback in
                  raise e)
          else None))
    session_close.

(** ** main.py: the control loop, lines 423-497 *)

Definition MAX_RETRIES : nat := 3.

Definition next_page : py PageOutcome :=
  fun w =>
    (mk_world (store w) (session w) (tail (page_script w)) (lookup_script w) (commit_script w)
              (smtp_script w) (trace w),
     Return (match page_script w with o :: _ => o | [] => Interrupted end)).

(** [get_browser], lines 77-144: an exception of the [with] body is thrown
    into the generator at its [yield], logged at 135-137 and re-raised. *)
Definition get_browser {A} (body : py A) : py A :=
  try_except body
    (fun e => if is_Exception e
              then Some (let* _ := log (BrowserError e) in raise e)
              else None).

(** Lines 433-463: one run of the body of the retry loop, up to [break].
    [i] is the position of [url] in [config.urls]. *)
Definition attempt (G : gmap string pyobj) (config : Config) (initial_run : bool)
    (i : nat) (url : ustr) (retry : nat) : py unit :=
  let* _ := emit (EvAttempt url retry) in
  get_browser
    (let* page := next_page in
     match page with
     | NavTimeout => raise PlaywrightTimeoutError
     | NavFailed => raise PlainException
     | Interrupted => raise KeyboardInterrupt
     | Scraped listings =>
         let* _ := (if negb initial_run
                    then session_scope (process_listings G listings config)
                    else ret tt) in
         if Z.of_nat i <? Z.of_nat (length (urls config)) - 1
         then random_sleep 2 5
         else ret tt
     end).

(** Lines 431-476: [for retry in range(MAX_RETRIES)], run over the retry
    indices still to come. *)
Fixpoint retry_loop (G : gmap string pyobj) (config : Config) (initial_run : bool)
    (i : nat) (url : ustr) (retries : list nat) : py unit :=
  match retries with
  | [] => ret tt
  | retry :: rest =>
      let* done :=
        try_except
          (let* _ := attempt G config initial_run i url retry in ret true)
          (fun e =>
             match e with
             | PlaywrightTimeoutError =>
                 Some (if (retry =? MAX_RETRIES - 1)%nat then raise e
                       else
                         let* _ := log (TimeoutOnAttempt (Z.of_nat retry + 1)) in
                         let* _ := random_sleep (5 * (Z.of_nat retry + 1))
                                                (10 * (Z.of_nat retry + 1)) in
                         ret false)
             | DatabaseError =>
                 Some (let* _ := log DatabaseErrorWhileProcessing in
                       if (retry =? MAX_RETRIES - 1)%nat then raise e
                       else
                         let* _ := random_sleep (5 * (Z.of_nat retry + 1))
                                                (10 * (Z.of_nat retry + 1)) in
                         ret false)
             | _ => None
             end) in
      if done then ret tt else retry_loop G config initial_run i url rest
  end.

(** Lines 430-476: [for i, url in enumerate(config.urls)]. *)
Fixpoint url_loop (G : gmap string pyobj) (config : Config) (initial_run : bool)
    (i : nat) (us : list ustr) : py unit :=
  match us with
  | [] => ret tt
  | url :: rest =>
      let* _ := retry_loop G config initial_run i url (seq 0 MAX_RETRIES) in
      url_loop G config initial_run (S i) rest
  end.

Inductive LoopControl : Type := Continue | Break.

(** Lines 427-497: one iteration of [while True].  The result is the value
    of [initial_run] afterwards and whether the loop goes on. *)
Definition cycle (G : gmap string pyobj) (config : Config) (initial_run : bool)
  : py (bool * LoopControl) :=
  try_except
    (let* _ := url_loop G config initial_run 0 (urls config) in
     let* _ := emit EvCycleSleep in
     ret (false, Continue))
    (fun e =>
       match e with
       | KeyboardInterrupt =>
           Some (let* _ := log ShuttingDown in ret (initial_run, Break))
       | DatabaseError =>
           Some (let* _ := log CriticalDatabaseError in
                 let* _ := random_sleep 30 60 in
                 ret (initial_run, Continue))
       | _ =>
           Some (let* _ := log (CriticalError e) in
                 let* _ := random_sleep 30 60 in
                 ret (initial_run, Continue))
       end).

(** The first [n] iterations of [while True] (fewer after a [break]). *)
Fixpoint main_loop (G : gmap string pyobj) (config : Config) (n : nat)
    (initial_run : bool) : py bool :=
  match n with
  | O => ret initial_run
  | S n' =>
      let* r := cycle G config initial_run in
      match r with
      | (ir, Break) => ret ir
      | (ir, Continue) => main_loop G config n' ir
      end
  end.

(** [main] after a successful initialisation (lines 383-424):
    [process_listings] resolves its free names in the namespace of main.py,
    and [initial_run] starts as [True]. *)
Definition main (config : Config) (n : nat) : py bool :=
  main_loop main_globals config n true.

(** The world at process start. *)
Definition start (table : gmap ustr db_listing_entry) (pages : list PageOutcome)
    (lookups commits smtp : list bool) : World :=
  mk_world table table pages lookups commits smtp [].

(** * Vocabulary of the properties *)

Definition add_events (w : World) (evs : list Event) : World :=
  mk_world (store w) (session w) (page_script w) (lookup_script w) (commit_script w)
           (smtp_script w) (trace w ++ evs).

(** The events added to the trace of [w] on the way to [w']. *)
Definition new_events (w w' : World) : list Event :=
  drop (length (trace w)) (trace w').

Definition is_insert (ev : Event) : bool :=
  match ev with EvAdd _ => true | _ => false end.

Definition is_flag_update (ev : Event) : bool :=
  match ev with EvSetNotified _ => true | _ => false end.

Definition is_dispatch (ev : Event) : bool :=
  match ev with EvSendEmail _ _ => true | _ => false end.

Definition is_attempt (ev : Event) : bool :=
  match ev with EvAttempt _ _ => true | _ => false end.

Definition is_attempt_of (url : ustr) (ev : Event) : bool :=
  match ev with EvAttempt u _ => bool_decide (u = url) | _ => false end.

(** The batches handed to [send_email], in order. *)
Definition dispatched (t : list Event) : list (list db_listing_entry) :=
  omap (fun ev => match ev with EvSendEmail b _ => Some b | _ => None end) t.

(** [send_email] was called with a batch that holds a record of identity [k]. *)
Definition batch_includes (k : ustr) (ev : Event) : bool :=
  match ev with
  | EvSendEmail b _ => bool_decide (k ∈ map cl_id b)
  | _ => false
  end.

Definition count (p : Event -> bool) (t : list Event) : nat :=
  length (List.filter p t).

(** The log line of [send_notification] (line 333) for the [KeyError] of
    the template. *)
Definition template_error_log : Event :=
  EvLog (ErrorSendingNotification (KeyError (U " font-family"))).

(** A call of [send_notification] ended in its handler. *)
Definition is_failed_notification (ev : Event) : bool :=
  match ev with EvLog (ErrorSendingNotification _) => true | _ => false end.

(** The log line of the per-record handler for a [NameError] on [db]. *)
Definition name_error_log (l : db_listing_entry) : Event :=
  EvLog (ErrorProcessingListing (title l) (NameError "db")).

Definition is_sleep (ev : Event) : bool :=
  match ev with EvRandomSleep _ _ => true | _ => false end.

(** The events of one URL whose three attempts time out. *)
Definition timeout_events (url : ustr) : list Event :=
  [ EvAttempt url 0; EvLog (BrowserError PlaywrightTimeoutError);
    EvLog (TimeoutOnAttempt 1); EvRandomSleep (1 * 5) (1 * 10);
    EvAttempt url 1; EvLog (BrowserError PlaywrightTimeoutError);
    EvLog (TimeoutOnAttempt 2); EvRandomSleep (2 * 5) (2 * 10);
    EvAttempt url 2; EvLog (BrowserError PlaywrightTimeoutError) ].

(** The log line of the handlers of lines 492-497. *)
Definition critical_log (e : exn) : LogMsg :=
  match e with
  | DatabaseError => CriticalDatabaseError
  | _ => CriticalError e
  end.

(** The meta text of the specification's example, with the middle dot
    U+00B7 between the two parts. *)
Definition example_meta : ustr := U "3h ago " ++ [MIDDLE_DOT] ++ U " Brooklyn".

(** [m] keeps [P]: whatever the result of [m], [P] holds of the world
    afterwards when it held before. *)
Definition preserves {A} (P : World -> Prop) (m : py A) : Prop :=
  forall w, P w -> P (fst (m w)).

(** The events of the control loop itself; the others report what the
    session and the dispatcher did. *)
Definition is_loop_event (ev : Event) : bool :=
  match ev with
  | EvAttempt _ _ | EvRandomSleep _ _ | EvCycleSleep | EvLog _ => true
  | _ => false
  end.

(** The policy, run in its session, keeps [P]. *)
Definition process_keeps (G : gmap string pyobj) (config : Config)
    (P : World -> Prop) : Prop :=
  forall listings,
    preserves P (session_scope (process_listings G listings config)).

Definition touches_data (ev : Event) : bool :=
  is_insert ev || is_flag_update ev || is_dispatch ev.

(** The committed table is [T] and no event so far is an insert, a flag
    update or a call of [send_email]. *)
Definition inert (T : gmap ustr db_listing_entry) (w : World) : Prop :=
  store w = T /\ Forall (fun ev => touches_data ev = false) (trace w).






(** The events of the merge loop. *)
Definition is_merge_event (ev : Event) : bool :=
  match ev with
  | EvAdd _ | EvSetNotified _ | EvLog _ => true
  | _ => false
  end.

(** [w1] differs from [w] only by changes made through the session, by the
    lookups it used up and by the events [evs]. *)
Definition session_step (w w1 : World) (evs : list Event) : Prop :=
  w1 = mk_world (store w) (session w1) (page_script w) (lookup_script w1)
                (commit_script w) (smtp_script w) (trace w ++ evs).


(** The events that follow the merge loop when the commit fails: the commit
    of line 368 when the notify-set is not empty (handlers of main.py 378-381
    and models.py 188-191), else the commit of [session_scope]. *)
Definition failed_commit_events (new_listings : list ustr) : list Event :=
  match new_listings with
  | [] =>
      [ EvCommit false; EvLog (SessionDatabaseError SQLAlchemyError); EvRollback ]
  | _ =>
      [ EvCommit false; EvLog (ErrorInProcessListings SQLAlchemyError); EvRollback;
        EvLog (SessionDatabaseError SQLAlchemyError); EvRollback ]
  end.

Definition is_send_or_log (ev : Event) : bool :=
  match ev with EvSendEmail _ _ | EvLog _ => true | _ => false end.

(** [w'] differs from [w] by calls of [send_email] and log lines only (and
    by the part of the mail script they used up). *)
Definition dispatch_step (w w' : World) (sends : list Event) : Prop :=
  store w' = store w /\ session w' = session w
  /\ commit_script w' = commit_script w
  /\ trace w' = trace w ++ sends
  /\ Forall (fun ev => is_send_or_log ev = true) sends.


(** Since [w0], no call of [send_email] was made. *)
Definition quiet_since (w0 w : World) : Prop :=
  exists evs, trace w = trace w0 ++ evs
              /\ Forall (fun ev => is_dispatch ev = false) evs.


(** ** Vocabulary of the further properties *)

Definition is_rollback (ev : Event) : bool :=
  match ev with EvRollback => true | _ => false end.

(** The pause of lines 460-461 after the URL at position [i] of a list of
    [total] URLs. *)
Definition pause_events (total i : nat) : list Event :=
  if Z.of_nat i <? Z.of_nat total - 1 then [EvRandomSleep 2 5] else [].

(** The events of a pass over the URLs [us] (the first of them at position
    [i] of a list of [total] URLs) in which every page loads at the first
    attempt and the policy is not called. *)
Fixpoint visit_events (total i : nat) (us : list ustr) : list Event :=
  match us with
  | [] => []
  | u :: rest =>
      EvAttempt u 0 :: pause_events total i ++ visit_events total (S i) rest
  end.

(** The events of [k] attempts at [url] that time out and are retried:
    attempts [first], [first+1], ... *)
Fixpoint retried_timeout_events (url : ustr) (first k : nat) : list Event :=
  match k with
  | O => []
  | S k' =>
      [ EvAttempt url first; EvLog (BrowserError PlaywrightTimeoutError);
        EvLog (TimeoutOnAttempt (Z.of_nat first + 1));
        EvRandomSleep (5 * (Z.of_nat first + 1)) (10 * (Z.of_nat first + 1)) ]
      ++ retried_timeout_events url (S first) k'
  end.

(** The identities of the rows inserted by the events [evs], in order. *)
Definition added_ids (evs : list Event) : list ustr :=
  omap (fun ev => match ev with EvAdd r => Some (cl_id r) | _ => None end) evs.

(** [r'] is [r], or [r] with its [notified] flag set. *)
Definition row_kept (r r' : db_listing_entry) : Prop :=
  r' = r \/ r' = set_notified r.

(** Every row of [m] is still in [m'], under the same key and unchanged but
    for a [notified] flag that may have been set. *)
Definition extends (m m' : gmap ustr db_listing_entry) : Prop :=
  forall k r, m !! k = Some r -> exists r', m' !! k = Some r' /\ row_kept r r'.

(** The invariant [I table view] holds of the table and of the view of the
    session. *)
Definition holds_in (I : gmap ustr db_listing_entry ->
                         gmap ustr db_listing_entry -> Prop) (w : World) : Prop :=
  I (store w) (session w).

(** The same between sessions, when the view is the table. *)
Definition holds_of_table (I : gmap ustr db_listing_entry ->
                               gmap ustr db_listing_entry -> Prop)
    (w : World) : Prop :=
  I (store w) (store w).

(** [s] neither starts nor ends with a white-space character. *)
Definition no_outer_space (s : ustr) : Prop :=
  (forall c rest, s = c :: rest -> is_js_space c = false)
  /\ (forall c init, s = init ++ [c] -> is_js_space c = false).

(** ** main.py: the SMTP retries of send_email, lines 285-319

    The notification part above takes one call of [send_email] as one step.
    Here is the loop inside it.  The conversion of the message to plain text
    (lines 296-301) is taken to succeed. *)

Module smtp.

(** What one connection to the server (lines 305-311) comes to:
    the message is sent; or [SMTPServerDisconnected] / [SMTPConnectError]
    is raised; or another exception is (authentication, refused
    recipients, a time-out of the socket). *)
Inductive SmtpOutcome : Type := Delivered | ConnectionError | OtherFailure.

Inductive MailEvent : Type :=
| SmtpConnect (attempt : nat)           (* smtplib.SMTP(...), line 305 *)
| LogEmailSent                          (* line 310 *)
| LogConnectionError (attempt : Z)      (* line 315 *)
| Sleep (seconds : Z)                   (* time.sleep(5), line 316 *)
| LogFailedToSend.                      (* line 318 *)

Inductive mail_error : Type := SMTPConnectionError | SMTPOtherError.

Inductive mail_result : Type := Done | Failed (e : mail_error).

(** [outcomes] scripts the successive connections (exhausted: the message
    is sent); [events] lists what happened so far, the oldest first. *)
Record Mailer : Type := mk_mailer {
  outcomes : list SmtpOutcome;
  events : list MailEvent
}.

Definition SMTP_MAX_RETRIES : nat := 3.

(** Lines 303-316: [for attempt in range(SMTP_MAX_RETRIES)], run over the
    attempt indices still to come. *)
Fixpoint smtp_attempts (attempts : list nat) (m : Mailer) : Mailer * mail_result :=
  match attempts with
  | [] => (m, Done)
  | attempt :: rest =>
      let m1 := mk_mailer (tail (outcomes m)) (events m ++ [SmtpConnect attempt]) in
      match hd Delivered (outcomes m) with
      | Delivered =>
          (mk_mailer (outcomes m1) (events m1 ++ [LogEmailSent]), Done)
      | ConnectionError =>
          if (attempt =? SMTP_MAX_RETRIES - 1)%nat
          then (m1, Failed SMTPConnectionError)
          else smtp_attempts rest
                 (mk_mailer (outcomes m1)
                    (events m1 ++ [LogConnectionError (Z.of_nat attempt + 1);
                                   Sleep 5]))
      | OtherFailure => (m1, Failed SMTPOtherError)
      end
  end.

(** [send_email], lines 285-319; [enabled] is [config.email.enabled]. *)
Definition send_email (enabled : bool) (m : Mailer) : Mailer * mail_result :=
  if negb enabled then (m, Done)
  else
    match smtp_attempts (seq 0 SMTP_MAX_RETRIES) m with
    | (m', Failed e) =>
        (mk_mailer (outcomes m') (events m' ++ [LogFailedToSend]), Failed e)
    | (m', Done) => (m', Done)
    end.





End smtp.

(** ** models.py: the validation of the configuration, lines 14-99 *)

(** The regular expressions of [validate], with the meaning Python's [re]
    gives them on [str]. *)
Module re.

Inductive regex : Type :=
| Never                          (* matches no string *)
| Empty                          (* matches the empty string *)
| Class (p : N -> bool)          (* one character of a class *)
| Seq (r1 r2 : regex)
| Or (r1 r2 : regex)
| Star (r : regex).

Fixpoint nullable (r : regex) : bool :=
  match r with
  | Never => false
  | Empty => true
  | Class _ => false
  | Seq r1 r2 => nullable r1 && nullable r2
  | Or r1 r2 => nullable r1 || nullable r2
  | Star _ => true
  end.

(** What remains to be matched after the character [c]. *)
Fixpoint deriv (c : N) (r : regex) : regex :=
  match r with
  | Never => Never
  | Empty => Never
  | Class p => if p c then Empty else Never
  | Seq r1 r2 =>
      Or (Seq (deriv c r1) r2) (if nullable r1 then deriv c r2 else Never)
  | Or r1 r2 => Or (deriv c r1) (deriv c r2)
  | Star r1 => Seq (deriv c r1) (Star r1)
  end.

(** [r] matches the whole of [s]. *)
Fixpoint accepts (r : regex) (s : ustr) : bool :=
  match s with
  | [] => nullable r
  | c :: s' => accepts (deriv c r) s'
  end.

(** The strings [r] matches. *)
Inductive lang : regex -> ustr -> Prop :=
| lang_empty : lang Empty []
| lang_class p c : p c = true -> lang (Class p) [c]
| lang_seq r1 r2 s1 s2 : lang r1 s1 -> lang r2 s2 -> lang (Seq r1 r2) (s1 ++ s2)
| lang_or_l r1 r2 s : lang r1 s -> lang (Or r1 r2) s
| lang_or_r r1 r2 s : lang r2 s -> lang (Or r1 r2) s
| lang_star_nil r : lang (Star r) []
| lang_star_app r s1 s2 : lang r s1 -> lang (Star r) s2 -> lang (Star r) (s1 ++ s2).

Definition char (c : N) : regex := Class (N.eqb c).

(** The characters of [s] one after the other. *)
Definition literal (s : ustr) : regex :=
  fold_right (fun c r => Seq (char c) r) Empty s.

Definition optional (r : regex) : regex := Or r Empty.        (* r? *)
Definition plus (r : regex) : regex := Seq r (Star r).        (* r+ *)
Definition two_or_more (r : regex) : regex := Seq r (Seq r (Star r)).  (* r{2,} *)

(** [\s] on [str]: the characters for which [str.isspace] holds. *)
Definition is_py_space (c : N) : bool :=
  ((9 <=? c) && (c <=? 13) || (28 <=? c) && (c <=? 32)
   || (8192 <=? c) && (c <=? 8202))%N
  || existsb (N.eqb c) [133; 160; 5760; 8232; 8233; 8239; 8287; 12288]%N.

Definition in_range (lo hi c : N) : bool := ((lo <=? c) && (c <=? hi))%N.

Definition is_letter (c : N) : bool := in_range 97 122 c || in_range 65 90 c.
Definition is_digit (c : N) : bool := in_range 48 57 c.

(** [pattern.match(s)] for a pattern [^body$]: the body matches from the
    start, and [$] holds at the end of [s] or just before a line feed that
    ends [s]. *)
Definition match_anchored (body : regex) (s : ustr) : bool :=
  accepts body s
  || match rev s with
     | 10%N :: init => accepts body (rev init)
     | _ => false
     end.

(** [^https?://[^\s/$.?#].[^\s]*$], models.py line 84. *)
Definition url_body : regex :=
  Seq (literal (U "http"))
   (Seq (optional (char 115))
    (Seq (literal (U "://"))
     (Seq (Class (fun c => negb (is_py_space c
                                 || existsb (N.eqb c) [47; 36; 46; 63; 35]%N)))
      (Seq (Class (fun c => negb (N.eqb c 10)))
           (Star (Class (fun c => negb (is_py_space c)))))))).

Definition url_pattern_match (s : ustr) : bool := match_anchored url_body s.

(** [[a-zA-Z0-9._%+-]], [[a-zA-Z0-9.-]]. *)
Definition is_local_char (c : N) : bool :=
  is_letter c || is_digit c || existsb (N.eqb c) [46; 95; 37; 43; 45]%N.
Definition is_domain_char (c : N) : bool :=
  is_letter c || is_digit c || existsb (N.eqb c) [46; 45]%N.

(** [^[a-zA-Z0-9._%+-]+@[a-zA-Z0-9.-]+\.[a-zA-Z]{2,}$], models.py line 46. *)
Definition email_body : regex :=
  Seq (plus (Class is_local_char))
   (Seq (char 64)
    (Seq (plus (Class is_domain_char))
     (Seq (char 46) (two_or_more (Class is_letter))))).

Definition email_pattern_match (s : ustr) : bool := match_anchored email_body s.

End re.

(** The two dataclasses of models.py with all their fields, and their
    [validate] methods. *)
Module settings.

Record EmailConfig : Type := mk_email_config {
  enabled : bool;
  smtp_server : ustr;
  smtp_port : Z;
  smtp_use_tls : bool;
  imap_server : ustr;
  imap_port : Z;
  username : ustr;
  password : ustr;
  from_address : ustr;
  to_addresses : list ustr;
  notification_subject_prefix : ustr
}.

Record Config : Type := mk_full_config {
  urls : list ustr;
  email : EmailConfig;
  db_user : ustr;
  db_password : ustr;
  filters : list ustr;
  combine_notifications : bool;
  notification_cooldown : Z;
  max_results_per_search : Z;
  db_host : ustr;
  db_port : ustr;
  db_name : ustr;
  db_pool_size : Z;
  db_max_overflow : Z;
  db_pool_timeout : Z
}.

(** [if not s: errors.append(msg)] for a string [s]. *)
Definition required (s : ustr) (msg : string) : list ustr :=
  match s with [] => [U msg] | _ => [] end.

Definition invalid_email (a : ustr) : ustr :=
  U "Invalid email address format: " ++ a.

Definition invalid_url (u : ustr) : ustr :=
  U "Invalid URL format: " ++ u.

(** [EmailConfig.validate], lines 29-50. *)
Definition email_validate (e : EmailConfig) : list ustr :=
  if enabled e then
    required (smtp_server e) "SMTP server is required when email is enabled"
    ++ (if smtp_port e =? 0
        then [U "SMTP port is required when email is enabled"] else [])
    ++ required (username e) "Username is required when email is enabled"
    ++ required (password e) "Password is required when email is enabled"
    ++ required (from_address e) "From address is required when email is enabled"
    ++ match to_addresses e with
       | [] => [U "At least one recipient address is required when email is enabled"]
       | _ =>
           map invalid_email
               (List.filter (fun a => negb (re.email_pattern_match a))
                            (from_address e :: to_addresses e))
       end
  else [].

(** [Config.validate], lines 76-99. *)
Definition validate (c : Config) : list ustr :=
  match urls c with
  | [] => [U "At least one URL is required"]
  | _ =>
      map invalid_url
          (List.filter (fun u => negb (re.url_pattern_match u)) (urls c))
  end
  ++ required (db_user c) "Database user is required"
  ++ required (db_password c) "Database password is required"
  ++ email_validate (email c).

End settings.

(** * Properties *)

(** ** Reading traces *)

Lemma add_events_nil w : add_events w [] = w.
Proof. destruct w; unfold add_events; simpl. by rewrite app_nil_r. Qed.

Lemma add_events_app w a b :
  add_events (add_events w a) b = add_events w (a ++ b).
Proof. unfold add_events; simpl. by rewrite app_assoc. Qed.

Lemma new_events_add w evs : new_events w (add_events w evs) = evs.
Proof. unfold new_events, add_events; simpl. by rewrite drop_app_length. Qed.

Lemma emit_add ev w : emit ev w = (add_events w [ev], Return tt).
Proof. reflexivity. Qed.

(** ** Running the monad *)

Lemma bind_return {A B} (m : py A) (k : A -> py B) w w' a :
  m w = (w', Return a) -> bind m k w = k a w'.
Proof. intros H. unfold bind. by rewrite H. Qed.

Lemma bind_raised {A B} (m : py A) (k : A -> py B) w w' e :
  m w = (w', Raised e) -> bind m k w = (w', Raised e).
Proof. intros H. unfold bind. by rewrite H. Qed.

Lemma try_except_return {A} (m : py A) h w w' a :
  m w = (w', Return a) -> try_except m h w = (w', Return a).
Proof. intros H. unfold try_except. by rewrite H. Qed.

Lemma try_except_caught {A} (m : py A) h w w' e k :
  m w = (w', Raised e) -> h e = Some k -> try_except m h w = k w'.
Proof. intros H Hh. unfold try_except. by rewrite H, Hh. Qed.

Lemma try_except_passed {A} (m : py A) h w w' e :
  m w = (w', Raised e) -> h e = None -> try_except m h w = (w', Raised e).
Proof. intros H Hh. unfold try_except. by rewrite H, Hh. Qed.

Lemma bind_assoc {A B C} (m : py A) (k : A -> py B) (k' : B -> py C) w :
  bind (bind m k) k' w = bind m (fun a => bind (k a) k') w.
Proof. unfold bind. by destruct (m w) as [w1 [a|e]]. Qed.

Lemma bind_ext {A B} (m : py A) (k k' : A -> py B) w :
  (forall a w1, k a w1 = k' a w1) -> bind m k w = bind m k' w.
Proof. intros H. unfold bind. by destruct (m w) as [w1 [a|e]]. Qed.

(** Unfolds the monad and the primitive steps, so that a computation on a
    world given by its fields reduces. *)
Ltac py_unfold :=
  unfold try_finally, try_except, bind, ret, raise, log, random_sleep, emit,
    get_session, set_session, open_session, session_close, session_commit,
    session_rollback, next_lookup in *.

(** ** The name [db] in main.py *)

Lemma db_unbound : main_globals !! "db" = None.
Proof. vm_compute. reflexivity. Qed.

Lemma query_first_unbound k w :
  query_first main_globals k w = (w, Raised (NameError "db")).
Proof. unfold query_first, load_global, bind. by rewrite db_unbound. Qed.

Lemma merge_listing_unbound l nl w :
  merge_listing main_globals l nl w = (w, Raised (NameError "db")).
Proof. unfold merge_listing, bind. by rewrite query_first_unbound. Qed.

Lemma merge_loop_unbound listings nl w :
  merge_loop main_globals listings nl w
  = (add_events w (map name_error_log listings), Return nl).
Proof.
  revert w. induction listings as [|l rest IH]; intros w; simpl.
  - by rewrite add_events_nil.
  - erewrite bind_return; cycle 1.
    + erewrite try_except_caught;
        [ | apply merge_listing_unbound | reflexivity ].
      reflexivity.
    + rewrite IH. unfold add_events; simpl. by rewrite <- app_assoc.
Qed.

Lemma process_listings_unbound listings config w :
  process_listings main_globals listings config w
  = (add_events w (map name_error_log listings), Return tt).
Proof.
  unfold process_listings, try_except, bind.
  by rewrite merge_loop_unbound.
Qed.

Lemma count_map_name_error_log p listings :
  (forall l, p (name_error_log l) = false) ->
  count p (map name_error_log listings) = 0%nat.
Proof.
  intros Hp. unfold count. induction listings as [|l rest IH]; simpl; [done|].
  by rewrite Hp.
Qed.

(** C1.  Whatever list of extracted records [process_listings] is given, as
    the function stands in main.py (where [db] is not a global name): the
    lookup of every record raises [NameError], the per-record handler logs
    it, the notify-set computed by the loop is empty, the call returns
    normally, the table and the session are as before, and the call adds no
    insert, no update of a [notified] flag and no call of [send_email] to
    the trace: its only events are the log lines of the handler, one per
    record. *)
Theorem process_listings_is_inert (listings : list db_listing_entry)
    (config : Config) (w : World) :
  let w' := fst (process_listings main_globals listings config w) in
  main_globals !! "db" = None
  /\ snd (merge_loop main_globals listings [] w) = Return []
  /\ snd (process_listings main_globals listings config w) = Return tt
  /\ store w' = store w
  /\ session w' = session w
  /\ new_events w w' = map name_error_log listings
  /\ count is_insert (new_events w w') = 0%nat
  /\ count is_flag_update (new_events w w') = 0%nat
  /\ count is_dispatch (new_events w w') = 0%nat.
Proof.
  cbv zeta. rewrite process_listings_unbound, merge_loop_unbound.
  cbn [fst snd]. rewrite new_events_add.
  split; [apply db_unbound|].
  repeat split; by apply count_map_name_error_log.
Qed.

(** ** The retry loop *)

(** C4.  When every attempt at a URL ends in a timeout, the retry loop
    ([MAX_RETRIES] = 3) runs the attempt exactly three times and then lets
    the timeout propagate to its caller; after the first failed attempt it
    sleeps a random time between 1*5 and 1*10 seconds, after the second
    between 2*5 and 2*10 seconds, and it does not sleep after the third. *)
Theorem retry_loop_three_timeouts (G : gmap string pyobj) (config : Config)
    (initial_run : bool) (i : nat) (url : ustr) (w : World)
    (rest : list PageOutcome) :
  page_script w = NavTimeout :: NavTimeout :: NavTimeout :: rest ->
  retry_loop G config initial_run i url (seq 0 MAX_RETRIES) w
  = (mk_world (store w) (session w) rest (lookup_script w) (commit_script w) (smtp_script w)
              (trace w ++ timeout_events url),
     Raised PlaywrightTimeoutError)
  /\ count is_attempt (timeout_events url) = 3%nat
  /\ List.filter is_sleep (timeout_events url)
     = [EvRandomSleep (1 * 5) (1 * 10); EvRandomSleep (2 * 5) (2 * 10)].
Proof.
  intros Hpages. destruct w as [st se pages qs cs ss tr]. simpl in Hpages. subst pages.
  split; [|split; reflexivity].
  cbn. unfold timeout_events. rewrite <- !app_assoc. reflexivity.
Qed.

Lemma retry_loop_three_timeouts_witness :
  let u := U "https://example.org/search/zip" in
  let config := mk_config [u] (mk_email true) true in
  let w := start ∅ [NavTimeout; NavTimeout; NavTimeout] [] [] [] in
  snd (retry_loop main_globals config false 0 u (seq 0 MAX_RETRIES) w)
  = Raised PlaywrightTimeoutError
  /\ trace (fst (retry_loop main_globals config false 0 u (seq 0 MAX_RETRIES) w))
     = timeout_events u.
Proof.
  intros u config w.
  destruct (retry_loop_three_timeouts main_globals config false 0 u w []
              eq_refl) as [Hrun _].
  rewrite Hrun. split; reflexivity.
Defined.

(** ** The URL loop and the cycle *)

Lemma url_loop_app G config initial_run i pre post w :
  url_loop G config initial_run i (pre ++ post) w
  = bind (url_loop G config initial_run i pre)
         (fun _ => url_loop G config initial_run (i + length pre) post) w.
Proof.
  revert i w. induction pre as [|u pre IH]; intros i w;
    cbn [app url_loop length].
  - unfold bind, ret. by rewrite Nat.add_0_r.
  - rewrite bind_assoc. apply bind_ext. intros _ w1.
    rewrite IH. by replace (i + S (length pre))%nat with (S i + length pre)%nat by lia.
Qed.

(** C5, amended.  When the retry loop of a URL ends in an error (its
    retries exhausted, or an error that is not retried), the error leaves
    the URL loop: it is caught by the handler of the cycle, which logs it and
    sleeps 30 to 60 seconds; the URLs after it are not attempted in this
    cycle, [initial_run] keeps its value, and the loop goes on with the next
    cycle. *)
Theorem cycle_stops_at_failed_url (G : gmap string pyobj) (config : Config)
    (initial_run : bool) (pre post : list ustr) (url : ustr)
    (w w1 w2 : World) (e : exn) :
  urls config = pre ++ url :: post ->
  url_loop G config initial_run 0 pre w = (w1, Return tt) ->
  retry_loop G config initial_run (length pre) url (seq 0 MAX_RETRIES) w1
  = (w2, Raised e) ->
  is_Exception e = true ->
  cycle G config initial_run w
  = (add_events w2 [EvLog (critical_log e); EvRandomSleep 30 60],
     Return (initial_run, Continue))
  /\ count is_attempt
       (new_events w2 (fst (cycle G config initial_run w))) = 0%nat.
Proof.
  intros Hurls Hpre Hurl He.
  assert (Hloop : url_loop G config initial_run 0 (urls config) w = (w2, Raised e)).
  { rewrite Hurls, url_loop_app. erewrite bind_return by exact Hpre.
    cbn [url_loop Nat.add]. by erewrite bind_raised by exact Hurl. }
  assert (Hcycle : cycle G config initial_run w
    = (add_events w2 [EvLog (critical_log e); EvRandomSleep 30 60],
       Return (initial_run, Continue))).
  { unfold cycle, try_except.
    erewrite bind_raised by exact Hloop.
    destruct e; try discriminate He;
      cbn; unfold add_events; by rewrite <- app_assoc. }
  split; [exact Hcycle|].
  rewrite Hcycle. cbn [fst]. by rewrite new_events_add.
Qed.

Lemma cycle_stops_at_failed_url_witness :
  let u1 := U "https://example.org/one" in
  let u2 := U "https://example.org/two" in
  let config := mk_config [u1; u2] (mk_email true) true in
  let w := start ∅ [NavTimeout; NavTimeout; NavTimeout; Scraped []] [] [] [] in
  cycle main_globals config false w
  = (mk_world ∅ ∅ [Scraped []] [] [] []
       (timeout_events u1
        ++ [EvLog (CriticalError PlaywrightTimeoutError); EvRandomSleep 30 60]),
     Return (false, Continue)).
Proof.
  intros u1 u2 config w.
  destruct (cycle_stops_at_failed_url main_globals config false [] [u2] u1 w w
              (mk_world ∅ ∅ [Scraped []] [] [] [] (timeout_events u1))
              PlaywrightTimeoutError) as [Hrun _];
    [reflexivity | reflexivity | reflexivity | reflexivity | ].
  rewrite Hrun. reflexivity.
Defined.

(** C5 as stated fails.  With two configured URLs, the first of which times
    out on all three attempts: the second, although configured and although
    its page would load, is not attempted in that cycle. *)
Lemma second_url_skipped_after_failure :
  let u1 := U "https://example.org/one" in
  let u2 := U "https://example.org/two" in
  let config := mk_config [u1; u2] (mk_email true) true in
  let w := start ∅ [NavTimeout; NavTimeout; NavTimeout; Scraped []] [] [] [] in
  let w' := fst (cycle main_globals config false w) in
  In u2 (urls config)
  /\ count (is_attempt_of u1) (trace w') = 3%nat
  /\ count (is_attempt_of u2) (trace w') = 0%nat
  /\ page_script w' = [Scraped []].
Proof.
  cbv zeta. repeat split; try (vm_compute; reflexivity).
  right; left; reflexivity.
Qed.

(** ** The meta field *)

(** C9 at the example.  The snippet splits on the two characters
    U+00C2 U+00B7, which do not occur in the text: the split returns the
    whole text as its only piece, [location] is undefined, and no record
    comes back for the element, whatever its title and link. *)
Theorem meta_example_is_not_split (title_text href : ustr) :
  In MIDDLE_DOT example_meta
  /\ split SEPARATOR example_meta = [example_meta]
  /\ meta_fields example_meta = (example_meta, None)
  /\ evaluate_listing (mk_element (Some (title_text, href)) (Some example_meta))
     = None.
Proof.
  repeat split; try reflexivity.
  unfold example_meta, MIDDLE_DOT. apply in_or_app. right. left. reflexivity.
Qed.

(** With the two characters of [SEPARATOR] in the text, the same snippet
    yields the two fields, trimmed. *)
Lemma meta_with_source_separator (title_text href : ustr) :
  evaluate_listing
    (mk_element (Some (title_text, href))
                (Some (U "3h ago " ++ SEPARATOR ++ U " Brooklyn")))
  = Some (mk_listing_data title_text href (U "3h ago") (U "Brooklyn")).
Proof. reflexivity. Qed.

(** More generally: a text in which the two characters of [SEPARATOR]
    occur once, between parts that do not contain U+00C2, is split into
    these two parts. *)
Lemma split_from_without_separator (cur s : ustr) :
  ~ In 194%N s -> split_from SEPARATOR O cur s = [rev cur ++ s].
Proof.
  revert cur. induction s as [|c s IH]; intros cur Hs; cbn [split_from].
  - by rewrite app_nil_r.
  - assert (Hc : N.eqb 194 c = false).
    { apply N.eqb_neq. intros <-. apply Hs. by left. }
    unfold SEPARATOR at 1. cbn [starts_with]. rewrite Hc.
    rewrite IH; [|intros Hin; apply Hs; by right].
    cbn [rev]. by rewrite <- app_assoc.
Qed.

Lemma split_at_source_separator (cur a b : ustr) :
  ~ In 194%N a -> ~ In 194%N b ->
  split_from SEPARATOR O cur (a ++ SEPARATOR ++ b) = [rev cur ++ a; b].
Proof.
  intros Ha Hb. revert cur. induction a as [|c a IH]; intros cur.
  - cbn. rewrite app_nil_r. f_equal.
    by rewrite (split_from_without_separator [] b Hb).
  - assert (Hc : N.eqb 194 c = false).
    { apply N.eqb_neq. intros <-. apply Ha. by left. }
    cbn [app split_from]. unfold SEPARATOR at 1. cbn [starts_with]. rewrite Hc.
    rewrite IH; [|intros Hin; apply Ha; by right].
    cbn [rev]. by rewrite <- app_assoc.
Qed.

Lemma meta_fields_at_source_separator (a b : ustr) :
  ~ In 194%N a -> ~ In 194%N b ->
  meta_fields (a ++ SEPARATOR ++ b) = (a, Some b).
Proof.
  intros Ha Hb. unfold meta_fields, split.
  by rewrite (split_at_source_separator [] a b Ha Hb).
Qed.

(** The identity is the last path segment of the link without [.html]. *)
Lemma identity_example :
  cl_id (make_listing
           (mk_listing_data (U "widget")
              (U "https://example.org/abc/d/widget/7001234567.html")
              (U "3h ago") (U "Brooklyn"))
           (U "2024-01-01 00:00:00"))
  = U "7001234567".
Proof. reflexivity. Qed.

(** ** The template of the message *)

(** The first single brace of the template opens the style rule of line
    52: its text up to the colon is taken for the name of a keyword, and
    there is no such keyword, whatever the listings. *)
Lemma template_format_fails (listings_html : ustr) :
  scan_format [(U "listings_html", listings_html)] InText HTML_EMAIL_TEMPLATE []
  = inl (KeyError (U " font-family")).
Proof. vm_compute. reflexivity. Qed.

(** So a call of [send_notification] with a batch that is not empty logs
    the [KeyError] (line 333) and returns: [send_email] is not reached. *)
Lemma send_notification_run listings config w :
  send_notification listings config w
  = match listings with
    | [] => (w, Return tt)
    | _ => (add_events w [template_error_log], Return tt)
    end.
Proof.
  destruct listings as [|l ls]; [reflexivity|].
  unfold send_notification, try_except, bind, str_format. cbv zeta.
  rewrite template_format_fails. reflexivity.
Qed.

(** ** Invariants of the control loop *)

Lemma preserves_ret {A} P (a : A) : preserves P (ret a).
Proof. by intros w Hw. Qed.

Lemma preserves_raise {A} P e : preserves P (@raise A e).
Proof. by intros w Hw. Qed.

Lemma preserves_bind {A B} P (m : py A) (k : A -> py B) :
  preserves P m -> (forall a, preserves P (k a)) -> preserves P (bind m k).
Proof.
  intros Hm Hk w Hw. unfold bind. specialize (Hm w Hw).
  destruct (m w) as [w1 [a|e]]; simpl in *; [by apply Hk | done].
Qed.

Lemma preserves_try_except {A} P (m : py A) h :
  preserves P m -> (forall e k, h e = Some k -> preserves P k) ->
  preserves P (try_except m h).
Proof.
  intros Hm Hh w Hw. unfold try_except. specialize (Hm w Hw).
  destruct (m w) as [w1 [a|e]]; simpl in *; [done|].
  destruct (h e) as [k|] eqn:Hk; [by apply (Hh e k) | done].
Qed.

Lemma preserves_try_finally {A} P (m : py A) f :
  preserves P m -> preserves P f -> preserves P (try_finally m f).
Proof.
  intros Hm Hf w Hw. unfold try_finally. specialize (Hm w Hw).
  destruct (m w) as [w1 r]; simpl in *. specialize (Hf w1 Hm).
  by destruct (f w1) as [w2 [[]|e]].
Qed.

Lemma preserves_if {A} P (b : bool) (m1 m2 : py A) :
  preserves P m1 -> preserves P m2 -> preserves P (if b then m1 else m2).
Proof. by destruct b. Qed.

Section control_loop.

Variable G : gmap string pyobj.
Variable config : Config.
Variable P : World -> Prop.

Hypothesis P_event :
  forall ev, is_loop_event ev = true -> preserves P (emit ev).
Hypothesis P_page : preserves P next_page.

Lemma preserves_attempt initial_run i url retry :
  (initial_run = false -> process_keeps G config P) ->
  preserves P (attempt G config initial_run i url retry).
Proof.
  intros P_process. unfold attempt, get_browser.
  apply preserves_bind; [by apply P_event|intros _].
  apply preserves_try_except.
  - apply preserves_bind; [exact P_page|intros page].
    destruct page; try apply preserves_raise.
    apply preserves_bind.
    + destruct initial_run; cbn [negb]; [apply preserves_ret|].
      by apply P_process.
    + intros _. apply preserves_if; [by apply P_event | apply preserves_ret].
  - intros e k Hk. destruct (is_Exception e); [|done].
    injection Hk as <-.
    apply preserves_bind; [by apply P_event | intros _; apply preserves_raise].
Qed.

Lemma preserves_retry_loop initial_run i url retries :
  (initial_run = false -> process_keeps G config P) ->
  preserves P (retry_loop G config initial_run i url retries).
Proof.
  intros P_process.
  induction retries as [|retry rest IH]; cbn [retry_loop].
  - apply preserves_ret.
  - apply preserves_bind.
    + apply preserves_try_except.
      * apply preserves_bind; [by apply preserves_attempt|].
        intros _; apply preserves_ret.
      * intros e k Hk. destruct e; try done; injection Hk as <-.
        -- apply preserves_bind; [by apply P_event|intros _].
           apply preserves_if; [apply preserves_raise|].
           apply preserves_bind; [by apply P_event|].
           intros _; apply preserves_ret.
        -- apply preserves_if; [apply preserves_raise|].
           apply preserves_bind; [by apply P_event|intros _].
           apply preserves_bind; [by apply P_event|].
           intros _; apply preserves_ret.
    + intros done. apply preserves_if; [apply preserves_ret | exact IH].
Qed.

Lemma preserves_url_loop initial_run i us :
  (initial_run = false -> process_keeps G config P) ->
  preserves P (url_loop G config initial_run i us).
Proof.
  intros P_process.
  revert i. induction us as [|url rest IH]; intros i; cbn [url_loop].
  - apply preserves_ret.
  - apply preserves_bind; [by apply preserves_retry_loop|].
    intros _. apply IH.
Qed.

Lemma preserves_cycle initial_run :
  (initial_run = false -> process_keeps G config P) ->
  preserves P (cycle G config initial_run).
Proof.
  intros P_process.
  unfold cycle. apply preserves_try_except.
  - apply preserves_bind; [by apply preserves_url_loop|intros _].
    apply preserves_bind; [by apply P_event|].
    intros _; apply preserves_ret.
  - intros e k Hk.
    destruct e; injection Hk as <-;
      (apply preserves_bind; [by apply P_event|intros _]);
      try apply preserves_ret;
      (apply preserves_bind; [by apply P_event|intros _]);
      apply preserves_ret.
Qed.

Lemma preserves_main_loop n initial_run :
  process_keeps G config P ->
  preserves P (main_loop G config n initial_run).
Proof.
  intros P_process.
  revert initial_run. induction n as [|n IH]; intros initial_run;
    cbn [main_loop].
  - apply preserves_ret.
  - apply preserves_bind; [by apply preserves_cycle|].
    intros [ir [|]]; [apply IH | apply preserves_ret].
Qed.

End control_loop.

(** ** The program as it stands: nothing is inserted, flagged or sent *)

Lemma session_scope_unbound listings config w :
  session_scope (process_listings main_globals listings config) w
  = let ok := hd true (commit_script w) in
    (mk_world (store w) (store w) (page_script w) (lookup_script w) (tail (commit_script w))
              (smtp_script w)
              (trace w ++ map name_error_log listings
               ++ EvCommit ok
                  :: (if ok then []
                      else [EvLog (SessionDatabaseError SQLAlchemyError);
                            EvRollback])),
     if ok then Return tt else Raised DatabaseError).
Proof.
  unfold session_scope.
  erewrite bind_return by reflexivity.
  unfold try_finally, try_except.
  erewrite bind_return by apply process_listings_unbound.
  destruct w as [st se pages qs [|[] cs] ss tr]; cbn;
    rewrite <- ?app_assoc; reflexivity.
Qed.

Lemma inert_event T ev :
  is_loop_event ev = true -> preserves (inert T) (emit ev).
Proof.
  intros Hev w [Hst Htr]. split; [done|]. cbn.
  apply Forall_app. split; [done|]. constructor; [|constructor].
  by destruct ev.
Qed.

Lemma inert_page T : preserves (inert T) next_page.
Proof. by intros w [Hst Htr]. Qed.

Lemma inert_process T config :
  process_keeps main_globals config (inert T).
Proof.
  intros listings w [Hst Htr]. rewrite session_scope_unbound. cbn.
  split; [done|]. apply Forall_app. split; [done|].
  apply Forall_app. split.
  - apply Forall_forall. intros ev Hev.
    apply list_elem_of_In, in_map_iff in Hev as [l [<- _]]. reflexivity.
  - destruct (hd true (commit_script w)); repeat constructor.
Qed.

Lemma main_is_inert config n table pages lookups commits smtp :
  inert table (fst (main config n (start table pages lookups commits smtp))).
Proof.
  unfold main.
  apply (preserves_main_loop main_globals config (inert table)
           (inert_event table) (inert_page table) n true
           (inert_process table config)).
  split; [reflexivity | constructor].
Qed.

Lemma count_zero p (t : list Event) :
  Forall (fun ev => p ev = false) t -> count p t = 0%nat.
Proof.
  unfold count. induction 1 as [|ev t Hev _ IH]; cbn; [done|]. by rewrite Hev.
Qed.

(** C2.  In every run of the program (any table at start, any number of
    cycles, any pages, any outcome of lookups, commits and mail submission) and
    for every identity [k], at most one call of [send_email] is made with a
    batch that includes a record of identity [k]; so a record once included
    in a notification is not included in a later one. *)
Theorem at_most_one_notification_per_record (config : Config) (n : nat)
    (table : gmap ustr db_listing_entry) (pages : list PageOutcome)
    (lookups commits smtp : list bool) (k : ustr) :
  (count (batch_includes k)
         (trace (fst (main config n (start table pages lookups commits smtp))))
   <= 1)%nat.
Proof.
  destruct (main_is_inert config n table pages lookups commits smtp) as [_ Htr].
  rewrite count_zero; [lia|].
  eapply Forall_impl; [exact Htr|].
  intros ev Hev. by destruct ev.
Qed.

(** The bound of C2 does not rest on [db] being unbound alone.  In a
    namespace that binds it to the mapped class, a record seen on three
    cycles is handed to [send_notification] twice (when it is inserted, its
    [notified] staying [False], and when it is found again, which is when
    the flag is set), and both times the template stops the notification
    before [send_email]. *)
Lemma fresh_record_with_db_bound :
  let u := U "https://example.org/search/zip" in
  let X := U "7001234567" in
  let r := mk_listing (U "https://example.org/zip/d/sofa/7001234567.html")
                      (U "sofa") X [] (U "3h ago")
                      (U "Brooklyn") (U "2024-01-01 00:00:00") false in
  let config := mk_config [u] (mk_email true) true in
  let G := <["db" := MappedClass]> main_globals in
  let pages := [Scraped [r]; Scraped [r]; Scraped [r]; Scraped [r]] in
  let t := trace (fst (main_loop G config 4 true (start ∅ pages [] [] []))) in
  count (batch_includes X) t = 0%nat
  /\ count is_failed_notification t = 2%nat.
Proof. vm_compute. split; reflexivity. Qed.

(** ** The first cycle and the second *)

(** On a cycle run with [initial_run] set, whatever the namespace and the
    pages: the policy is not called; the table is as before and the events
    of the cycle are those of the control loop (no insert, no flag update,
    no commit, no call of [send_email]). *)
Lemma first_cycle_suppression G config w :
  let w' := fst (cycle G config true w) in
  store w' = store w
  /\ exists evs, trace w' = trace w ++ evs
                /\ Forall (fun ev => is_loop_event ev = true) evs.
Proof.
  set (P := fun w0 : World =>
    store w0 = store w
    /\ exists evs, trace w0 = trace w ++ evs
                  /\ Forall (fun ev => is_loop_event ev = true) evs).
  assert (Hcycle : preserves P (cycle G config true)).
  { apply preserves_cycle; [| |done].
    - intros ev Hev w0 [Hst [evs [Htr Hevs]]]. split; [done|].
      exists (evs ++ [ev]). cbn. rewrite Htr, <- app_assoc. split; [done|].
      apply Forall_app. split; [done|]. by repeat constructor.
    - by intros w0 HP. }
  apply Hcycle. split; [done|]. exists []. by rewrite app_nil_r.
Qed.

(** C3 at a concrete run: one URL, whose page shows the same record on the
    first cycle and on the second.  The first cycle attempts the URL and
    calls nothing else.  On the second cycle the policy is called, the lookup
    of the record raises [NameError], and the record is neither inserted nor
    sent: the table is still empty after both cycles. *)
Theorem second_cycle_inserts_nothing :
  let u := U "https://example.org/search/zip" in
  let r := mk_listing (U "https://example.org/zip/d/sofa/7001234567.html")
                      (U "sofa") (U "7001234567") [] (U "3h ago")
                      (U "Brooklyn") (U "2024-01-01 00:00:00") false in
  let config := mk_config [u] (mk_email true) true in
  let run := main config 2 (start ∅ [Scraped [r]; Scraped [r]] [] [] []) in
  trace (fst run)
  = [ EvAttempt u 0; EvCycleSleep;
      EvAttempt u 0; name_error_log r; EvCommit true; EvCycleSleep ]
  /\ store (fst run) = ∅
  /\ snd run = Return false.
Proof. vm_compute. repeat split; reflexivity. Qed.

(** The same run in a namespace where [db] is bound to the mapped class:
    the second cycle inserts the record, and the notification stops at the
    template. *)
Lemma second_cycle_with_db_bound :
  let u := U "https://example.org/search/zip" in
  let r := mk_listing (U "https://example.org/zip/d/sofa/7001234567.html")
                      (U "sofa") (U "7001234567") [] (U "3h ago")
                      (U "Brooklyn") (U "2024-01-01 00:00:00") false in
  let config := mk_config [u] (mk_email true) true in
  let G := <["db" := MappedClass]> main_globals in
  let run := main_loop G config 2 true (start ∅ [Scraped [r]; Scraped [r]] [] [] []) in
  trace (fst run)
  = [ EvAttempt u 0; EvCycleSleep;
      EvAttempt u 0; EvAdd r; EvLog (NewListing (U "sofa")); EvCommit true;
      template_error_log; EvCommit true; EvCycleSleep ]
  /\ store (fst run) !! U "7001234567" = Some r.
Proof. vm_compute. repeat split; reflexivity. Qed.

(** ** A notified record is not notified again *)














Lemma deref_run refs w :
  deref refs w = (w, Return (omap (fun k => session w !! k) refs)).
Proof. reflexivity. Qed.










(** ** The merge loop, whatever the namespace *)

Lemma session_step_refl w : session_step w w [].
Proof. destruct w; unfold session_step; cbn. by rewrite app_nil_r. Qed.

Lemma session_step_trans w w1 w2 evs1 evs2 :
  session_step w w1 evs1 -> session_step w1 w2 evs2 ->
  session_step w w2 (evs1 ++ evs2).
Proof.
  unfold session_step. intros -> ->. cbn. by rewrite app_assoc.
Qed.

(** One record: the step returns or raises, within the session. *)
Lemma merge_listing_frame G l nl w :
  exists w1 r evs,
    merge_listing G l nl w = (w1, r)
    /\ session_step w w1 evs
    /\ Forall (fun ev => is_merge_event ev = true) evs
    /\ (forall e, r = Raised e -> is_Exception e = true).
Proof.
  unfold merge_listing, query_first, load_global.
  destruct w as [st se pages qs cs ss tr].
  destruct (G !! "db") as [[|]|]; py_unfold; cbn.
  - destruct (hd true qs); cbn.
    + destruct (se !! cl_id l) as [row|]; cbn; [destruct (notified row); cbn|].
      * eexists _, _, []. split_and!; [reflexivity| |constructor|done].
        unfold session_step; cbn. by rewrite app_nil_r.
      * eexists _, _, [EvSetNotified (cl_id l)].
        split_and!; [reflexivity| |by repeat constructor|done].
        unfold session_step; cbn. reflexivity.
      * eexists _, _, [EvAdd l; EvLog (NewListing (title l))].
        split_and!; [reflexivity| |by repeat constructor|done].
        unfold session_step; cbn. by rewrite <- app_assoc.
    + eexists _, _, []. split_and!; [reflexivity| |constructor|by intros e [= <-]].
      unfold session_step; cbn. by rewrite app_nil_r.
  - eexists _, _, []. split_and!; [reflexivity| |constructor|by intros e [= <-]].
    unfold session_step; cbn. by rewrite app_nil_r.
  - eexists _, _, []. split_and!; [reflexivity| |constructor|by intros e [= <-]].
    unfold session_step; cbn. by rewrite app_nil_r.
Qed.

(** The merge loop always returns a notify-set; it leaves the committed
    table and the other scripts alone and emits merge events only. *)
Lemma merge_loop_frame G listings nl w :
  exists w1 nl1 evs,
    merge_loop G listings nl w = (w1, Return nl1)
    /\ session_step w w1 evs
    /\ Forall (fun ev => is_merge_event ev = true) evs.
Proof.
  revert nl w. induction listings as [|l rest IH]; intros nl w;
    cbn [merge_loop].
  - exists w, nl, []. split; [done|]. split; [apply session_step_refl|constructor].
  - destruct (merge_listing_frame G l nl w) as (w1 & r & evs1 & Hm & Hs1 & He1 & Hr).
    assert (Hstep : exists w2 nl2 evs2,
      try_except (merge_listing G l nl)
        (fun e => if is_Exception e
                  then Some (let* _ := log (ErrorProcessingListing (title l) e) in
                             ret nl)
                  else None) w = (w2, Return nl2)
      /\ session_step w w2 evs2
      /\ Forall (fun ev => is_merge_event ev = true) evs2).
    { unfold try_except. rewrite Hm. destruct r as [nl1|e].
      - by exists w1, nl1, evs1.
      - rewrite (Hr e eq_refl).
        exists (add_events w1 [EvLog (ErrorProcessingListing (title l) e)]),
               nl, (evs1 ++ [EvLog (ErrorProcessingListing (title l) e)]).
        split; [reflexivity|]. split.
        + eapply session_step_trans; [exact Hs1|]. reflexivity.
        + apply Forall_app. split; [done|]. by repeat constructor. }
    destruct Hstep as (w2 & nl2 & evs2 & Hstep & Hs2 & He2).
    rewrite (bind_return _ _ _ _ _ Hstep).
    destruct (IH nl2 w2) as (w3 & nl3 & evs3 & Hrest & Hs3 & He3).
    exists w3, nl3, (evs2 ++ evs3). split; [done|]. split.
    + by eapply session_step_trans.
    + by apply Forall_app.
Qed.


(** ** Nothing reaches [send_email] *)

Lemma quiet_refl w0 : quiet_since w0 w0.
Proof. exists []. by rewrite app_nil_r. Qed.

Lemma quiet_step {A} w0 (m : py A) :
  (forall w, exists evs,
      trace (fst (m w)) = trace w ++ evs
      /\ Forall (fun ev => is_dispatch ev = false) evs) ->
  preserves (quiet_since w0) m.
Proof.
  intros Hm w (evs0 & Ht & Hq). destruct (Hm w) as (evs & Ht' & Hq').
  exists (evs0 ++ evs). rewrite Ht', Ht, <- app_assoc. split; [done|].
  by apply Forall_app.
Qed.

Lemma quiet_emit w0 ev :
  is_dispatch ev = false -> preserves (quiet_since w0) (emit ev).
Proof.
  intros Hev. apply quiet_step. intros w. exists [ev]. split; [done|].
  by repeat constructor.
Qed.

Lemma quiet_commit w0 : preserves (quiet_since w0) session_commit.
Proof.
  apply quiet_step. intros [st se pages qs cs ss tr].
  destruct cs as [|b cs]; cbn; eexists [_]; split; try done; by repeat constructor.
Qed.

Lemma quiet_rollback w0 : preserves (quiet_since w0) session_rollback.
Proof.
  apply quiet_step. intros w. exists [EvRollback]. split; [done|].
  by repeat constructor.
Qed.

Lemma quiet_merge_loop w0 G listings nl :
  preserves (quiet_since w0) (merge_loop G listings nl).
Proof.
  apply quiet_step. intros w.
  destruct (merge_loop_frame G listings nl w) as (w1 & nl1 & evs & Hm & Hs & He).
  rewrite Hm. exists evs. split; [by rewrite Hs|].
  eapply Forall_impl; [exact He|]. by intros [].
Qed.

Lemma quiet_send_notification w0 batch config :
  preserves (quiet_since w0) (send_notification batch config).
Proof.
  apply quiet_step. intros w. rewrite send_notification_run.
  destruct batch as [|r batch].
  - exists []. by rewrite app_nil_r.
  - exists [template_error_log]. split; [done|]. by repeat constructor.
Qed.

Lemma quiet_notify_each w0 refs config :
  preserves (quiet_since w0) (notify_each refs config).
Proof.
  induction refs as [|k refs IH]; cbn [notify_each]; [apply preserves_ret|].
  apply preserves_bind; [by intros w Hw|intros one].
  apply preserves_bind; [apply quiet_send_notification|intros _; exact IH].
Qed.

Lemma quiet_commit_and_notify w0 refs config :
  preserves (quiet_since w0) (commit_and_notify refs config).
Proof.
  unfold commit_and_notify. destruct refs as [|k refs]; [apply preserves_ret|].
  apply preserves_bind; [apply quiet_commit|intros _].
  apply preserves_try_except.
  - apply preserves_if; [|apply quiet_notify_each].
    apply preserves_bind; [by intros w Hw|intros batch].
    apply quiet_send_notification.
  - intros e h Hh. destruct (is_Exception e); [|done]. injection Hh as <-.
    by apply quiet_emit.
Qed.

Lemma quiet_process_listings w0 G listings config :
  preserves (quiet_since w0) (process_listings G listings config).
Proof.
  unfold process_listings. apply preserves_try_except.
  - apply preserves_bind; [apply quiet_merge_loop|].
    intros nl. apply quiet_commit_and_notify.
  - intros e h Hh. destruct (is_Exception e); [|done]. injection Hh as <-.
    apply preserves_bind; [by apply quiet_emit|intros _].
    apply preserves_bind; [apply quiet_rollback|intros _].
    apply preserves_raise.
Qed.

Lemma dispatched_quiet evs :
  Forall (fun ev => is_dispatch ev = false) evs -> dispatched evs = [].
Proof.
  unfold dispatched. induction 1 as [|ev evs Hev _ IH]; [done|].
  cbn. rewrite IH. by destruct ev.
Qed.

Lemma quiet_dispatched w0 w :
  quiet_since w0 w -> dispatched (new_events w0 w) = [].
Proof.
  intros (evs & Ht & Hq). unfold new_events. rewrite Ht, drop_app_length.
  by apply dispatched_quiet.
Qed.

(** ** Grouping of the notifications *)

(** C6 at its input: a batch of three new records.  As the function stands
    in main.py the three lookups raise [NameError], the notify-set is empty
    and lines 367-376 are not reached; and whatever [db] is bound to,
    whatever the table, the scripts and the value of
    [combine_notifications], the call hands no batch to [send_email]:
    neither one batch of three nor three batches of one. *)
Theorem three_new_records_are_not_dispatched (G : gmap string pyobj)
    (config : Config) (a b c : db_listing_entry) (w : World) :
  process_listings main_globals [a; b; c] config w
  = (add_events w [name_error_log a; name_error_log b; name_error_log c],
     Return tt)
  /\ dispatched (new_events w (fst (process_listings G [a; b; c] config w))) = [].
Proof.
  split; [apply process_listings_unbound|].
  apply quiet_dispatched. apply quiet_process_listings, quiet_refl.
Qed.

(** Where the lookup resolves, the grouping of lines 370-374 shows in the
    calls of [send_notification]: one call for the three records when
    [combine_notifications] is set, three calls otherwise; each of them
    stops at the template. *)
Lemma grouping_with_db_bound :
  let mk := fun i t =>
    mk_listing (U "https://example.org/zip/d/item/" ++ i ++ U ".html") t i []
               (U "1h ago") (U "Queens") (U "2024-01-01 00:00:00") false in
  let batch := [mk (U "1") (U "chair"); mk (U "2") (U "table"); mk (U "3") (U "lamp")] in
  let G := <["db" := MappedClass]> main_globals in
  let run := fun combine =>
    trace (fst (process_listings G batch
                  (mk_config [] (mk_email true) combine) (start ∅ [] [] [] []))) in
  count is_failed_notification (run true) = 1%nat
  /\ count is_failed_notification (run false) = 3%nat
  /\ dispatched (run true) = []
  /\ dispatched (run false) = []
  /\ count is_insert (run true) = 3%nat.
Proof. vm_compute. repeat split; reflexivity. Qed.

(** ** A failed commit *)

Lemma count_app p (a b : list Event) :
  count p (a ++ b) = (count p a + count p b)%nat.
Proof. unfold count. by rewrite List.filter_app, length_app. Qed.

Lemma session_scope_failed_commit G listings config w rest :
  commit_script w = false :: rest ->
  exists evs nl qs,
    Forall (fun ev => is_merge_event ev = true) evs
    /\ session_scope (process_listings G listings config) w
       = (mk_world (store w) (store w) (page_script w) qs rest (smtp_script w)
                   (trace w ++ evs ++ failed_commit_events nl),
          Raised DatabaseError).
Proof.
  intros Hcs. unfold session_scope.
  erewrite bind_return by reflexivity.
  destruct w as [st se pages qs cs ss tr]. cbn in Hcs. subst cs. cbn [store].
  destruct (merge_loop_frame G listings []
              (mk_world st st pages qs (false :: rest) ss tr))
    as (w1 & nl & evs & Hm & Hs & He).
  exists evs, nl, (lookup_script w1). split; [done|].
  unfold session_step in Hs. cbn in Hs.
  destruct nl as [|k nl].
  - assert (Hp : process_listings G listings config
                   (mk_world st st pages qs (false :: rest) ss tr)
                 = (w1, Return tt)).
    { unfold process_listings, try_except.
      by rewrite (bind_return _ _ _ _ _ Hm). }
    unfold try_finally, try_except.
    rewrite (bind_return _ _ _ _ _ Hp). rewrite Hs.
    py_unfold; cbn. rewrite <- !app_assoc. reflexivity.
  - assert (Hp : process_listings G listings config
                   (mk_world st st pages qs (false :: rest) ss tr)
                 = (mk_world st st pages (lookup_script w1) rest ss
                      (tr ++ evs ++ [EvCommit false;
                                     EvLog (ErrorInProcessListings SQLAlchemyError);
                                     EvRollback]),
                    Raised SQLAlchemyError)).
    { unfold process_listings, try_except.
      rewrite (bind_return _ _ _ _ _ Hm). rewrite Hs.
      py_unfold; cbn. rewrite <- !app_assoc. reflexivity. }
    unfold try_finally, try_except.
    rewrite (bind_raised _ _ _ _ _ Hp).
    py_unfold; cbn. rewrite <- !app_assoc. reflexivity.
Qed.

(** ** Dispatch after the commit *)

Lemma dispatch_step_trans w w1 w2 s1 s2 :
  dispatch_step w w1 s1 -> dispatch_step w1 w2 s2 ->
  dispatch_step w w2 (s1 ++ s2).
Proof.
  intros (H1 & H2 & H3 & H4 & H5) (K1 & K2 & K3 & K4 & K5).
  split_and!; try congruence.
  - by rewrite K4, H4, app_assoc.
  - by apply Forall_app.
Qed.

Lemma send_notification_step batch config w :
  exists w' sends,
    send_notification batch config w = (w', Return tt)
    /\ dispatch_step w w' sends.
Proof.
  rewrite send_notification_run. destruct batch as [|r batch].
  - exists w, []. split; [reflexivity|].
    split_and!; try done. by rewrite app_nil_r.
  - eexists _, [template_error_log]. split; [reflexivity|].
    split_and!; try done. by repeat constructor.
Qed.

Lemma notify_each_step refs config w :
  exists w' sends,
    notify_each refs config w = (w', Return tt)
    /\ dispatch_step w w' sends.
Proof.
  revert w. induction refs as [|k refs IH]; intros w; cbn [notify_each].
  - exists w, []. split; [done|]. split_and!; try done. by rewrite app_nil_r.
  - rewrite (bind_return _ _ _ _ _ (deref_run [k] w)).
    destruct (send_notification_step
                (omap (fun k0 => session w !! k0) [k]) config w)
      as (w1 & s1 & Hsend & Hstep1).
    rewrite (bind_return _ _ _ _ _ Hsend).
    destruct (IH w1) as (w2 & s2 & Hrest & Hstep2).
    exists w2, (s1 ++ s2). split; [done|]. by eapply dispatch_step_trans.
Qed.

(** Lines 367-376 with a notify-set that is not empty and a commit that
    succeeds: the view of the session becomes the table, then come the
    calls of [send_notification] (their log lines), and the call
    returns. *)
Lemma commit_and_notify_committed refs config w :
  refs <> [] ->
  hd true (commit_script w) = true ->
  exists w' sends,
    commit_and_notify refs config w = (w', Return tt)
    /\ store w' = session w
    /\ session w' = session w
    /\ trace w' = trace w ++ EvCommit true :: sends
    /\ Forall (fun ev => is_send_or_log ev = true) sends.
Proof.
  intros Hrefs Hc. unfold commit_and_notify.
  destruct refs as [|k refs]; [done|].
  set (w0 := mk_world (session w) (session w) (page_script w) (lookup_script w)
                      (tail (commit_script w)) (smtp_script w)
                      (trace w ++ [EvCommit true])).
  assert (Hcommit : session_commit w = (w0, Return tt)).
  { unfold session_commit, w0. destruct w as [st se pages qs [|b cs] ss tr];
      cbn in *; [done|]. by subst b. }
  rewrite (bind_return _ _ _ _ _ Hcommit).
  assert (Hbody : exists w' sends,
    (if combine_notifications config
     then let* batch := deref (k :: refs) in send_notification batch config
     else notify_each (k :: refs) config) w0 = (w', Return tt)
    /\ dispatch_step w0 w' sends).
  { destruct (combine_notifications config).
    - rewrite (bind_return _ _ _ _ _ (deref_run (k :: refs) w0)).
      apply send_notification_step.
    - apply notify_each_step. }
  destruct Hbody as (w' & sends & Hbody & H1 & H2 & H3 & H4 & H5).
  exists w', sends. rewrite (try_except_return _ _ _ _ _ Hbody).
  split_and!; try done. rewrite H4. cbn. by rewrite <- app_assoc.
Qed.

(** ** One call of the policy and its commit *)






(** ** The row found with [notified = false] *)

(** C7 at its input, in the program as it is: a row of identity [X] is in
    the table with [notified = false].  Whatever the other rows, the
    configuration, the number of cycles, the pages (which may show the
    record again and again) and the outcomes of lookups, commits and mail
    submissions: at the end of the run the row is as it was, its flag not
    set; no flag update, no insert and no call of [send_email] took place.
    The record is never made a notify-candidate. *)
Theorem unnotified_row_is_never_flagged (config : Config) (n : nat)
    (table : gmap ustr db_listing_entry) (pages : list PageOutcome)
    (lookups commits smtp : list bool) (X lk t sp tp loc ts : ustr) :
  let row := mk_listing lk t X sp tp loc ts false in
  let w' := fst (main config n
                   (start (<[X := row]> table) pages lookups commits smtp)) in
  store w' !! X = Some row
  /\ count is_flag_update (trace w') = 0%nat
  /\ count is_insert (trace w') = 0%nat
  /\ count is_dispatch (trace w') = 0%nat.
Proof.
  cbv zeta.
  destruct (main_is_inert config n
              (<[X := mk_listing lk t X sp tp loc ts false]> table)
              pages lookups commits smtp) as [Hst Htr].
  rewrite Hst, lookup_insert_eq.
  split_and!; [done| | |]; apply count_zero;
    (eapply Forall_impl; [exact Htr|]); intros ev Hev; by destruct ev.
Qed.

(** One call of the policy on that record, as the function stands and where
    the lookup resolves.  In main.py the lookup raises and the notify-set is
    empty.  With [db] bound the flag is set (line 362) and committed (line
    368) before the notification is attempted (line 371), and the
    notification stops at the template: the table then holds the record
    with [notified = true] although nothing was sent. *)
Lemma unnotified_row_one_call :
  let X := U "7001234567" in
  let row := mk_listing (U "https://example.org/zip/d/sofa/7001234567.html")
                        (U "sofa") X [] (U "3h ago") (U "Brooklyn")
                        (U "2024-01-01 00:00:00") false in
  let seen := mk_listing (U "https://example.org/zip/d/sofa/7001234567.html")
                         (U "sofa") X [] (U "5h ago") (U "Brooklyn")
                         (U "2024-01-01 02:00:00") false in
  let config := mk_config [U "https://example.org/search/zip"]
                          (mk_email true) true in
  let w := start {[X := row]} [] [] [] [] in
  let G := <["db" := MappedClass]> main_globals in
  snd (merge_loop main_globals [seen] [] w) = Return []
  /\ trace (fst (process_listings main_globals [seen] config w))
     = [name_error_log seen]
  /\ store (fst (process_listings main_globals [seen] config w)) !! X = Some row
  /\ trace (fst (process_listings G [seen] config w))
     = [ EvSetNotified X; EvCommit true; template_error_log ]
  /\ store (fst (process_listings G [seen] config w)) !! X
     = Some (set_notified row).
Proof. vm_compute. repeat split; reflexivity. Qed.

(** The helper lemmas on a namespace that binds [db]. *)



(** * Further properties of the control loop *)

(** Unfolds the retry loop over its three attempts. *)
Ltac loop_unfold :=
  unfold MAX_RETRIES; cbn [seq retry_loop];
  unfold attempt, get_browser, next_page; py_unfold.



(** X2.  An error of the page load that is not a timeout (no response, a
    status of 400 or more) is not retried: the URL is attempted once, no
    back-off sleep is taken, and the error leaves the retry loop at once. *)
Theorem navigation_failure_is_not_retried (G : gmap string pyobj)
    (config : Config) (initial_run : bool) (i : nat) (url : ustr) (w : World)
    (rest : list PageOutcome) :
  page_script w = NavFailed :: rest ->
  retry_loop G config initial_run i url (seq 0 MAX_RETRIES) w
  = (mk_world (store w) (session w) rest (lookup_script w) (commit_script w) (smtp_script w)
              (trace w ++ [EvAttempt url 0; EvLog (BrowserError PlainException)]),
     Raised PlainException).
Proof.
  intros Hpages. destruct w as [st se pages qs cs ss tr]. cbn in Hpages. subst pages.
  cbn. by rewrite <- app_assoc.
Qed.

Lemma navigation_failure_is_not_retried_witness :
  let u := U "https://example.org/search/zip" in
  let config := mk_config [u] (mk_email true) true in
  retry_loop main_globals config false 0 u (seq 0 MAX_RETRIES)
    (start ∅ [NavFailed; Scraped []] [] [] [])
  = (mk_world ∅ ∅ [Scraped []] [] [] []
       [EvAttempt u 0; EvLog (BrowserError PlainException)],
     Raised PlainException).
Proof.
  intros u config.
  apply (navigation_failure_is_not_retried main_globals config false 0 u
           (start ∅ [NavFailed; Scraped []] [] [] []) [Scraped []]).
  reflexivity.
Defined.

(** X3.  On a first cycle, a URL whose page times out [k] times ([k] less
    than 3) and then loads is attempted [k+1] times: the [j]-th failed
    attempt is followed by a sleep of [5j] to [10j] seconds, the URL
    completes, and the pause of 2 to 5 seconds follows unless the URL is the
    last of the list. *)
Theorem timeouts_then_load (G : gmap string pyobj) (config : Config)
    (i k : nat) (url : ustr) (listings : list db_listing_entry) (w : World)
    (rest : list PageOutcome) :
  (k < MAX_RETRIES)%nat ->
  page_script w = replicate k NavTimeout ++ Scraped listings :: rest ->
  retry_loop G config true i url (seq 0 MAX_RETRIES) w
  = (mk_world (store w) (session w) rest (lookup_script w) (commit_script w) (smtp_script w)
              (trace w ++ retried_timeout_events url 0 k
               ++ EvAttempt url k :: pause_events (length (urls config)) i),
     Return tt).
Proof.
  intros Hk Hpages. destruct w as [st se pages qs cs ss tr]. cbn in Hpages. subst pages.
  unfold MAX_RETRIES in Hk. unfold pause_events.
  destruct k as [|[|[|k]]]; [| | |lia]; loop_unfold; cbn;
    destruct (Z.of_nat i <? Z.of_nat (length (urls config)) - 1); cbn;
    rewrite <- ?app_assoc; reflexivity.
Qed.

Lemma timeouts_then_load_witness :
  let u := U "https://example.org/search/zip" in
  let config := mk_config [u; U "https://example.org/search/free"]
                          (mk_email true) true in
  retry_loop main_globals config true 0 u (seq 0 MAX_RETRIES)
    (start ∅ [NavTimeout; NavTimeout; Scraped []] [] [] [])
  = (mk_world ∅ ∅ [] [] [] []
       [ EvAttempt u 0; EvLog (BrowserError PlaywrightTimeoutError);
         EvLog (TimeoutOnAttempt 1); EvRandomSleep 5 10;
         EvAttempt u 1; EvLog (BrowserError PlaywrightTimeoutError);
         EvLog (TimeoutOnAttempt 2); EvRandomSleep 10 20;
         EvAttempt u 2; EvRandomSleep 2 5 ],
     Return tt).
Proof.
  intros u config.
  apply (timeouts_then_load main_globals config 0 2 u []
           (start ∅ [NavTimeout; NavTimeout; Scraped []] [] [] []) []).
  - unfold MAX_RETRIES. lia.
  - reflexivity.
Defined.

Lemma retry_loop_first_attempt_loads G config i url listings w rest :
  page_script w = Scraped listings :: rest ->
  retry_loop G config true i url (seq 0 MAX_RETRIES) w
  = (mk_world (store w) (session w) rest (lookup_script w) (commit_script w) (smtp_script w)
              (trace w ++ EvAttempt url 0 :: pause_events (length (urls config)) i),
     Return tt).
Proof.
  intros Hpages. destruct w as [st se pages qs cs ss tr]. cbn in Hpages. subst pages.
  unfold pause_events. loop_unfold; cbn.
  destruct (Z.of_nat i <? Z.of_nat (length (urls config)) - 1); cbn;
    rewrite <- ?app_assoc; reflexivity.
Qed.

Lemma filter_sleep_visit_events (i : nat) (us : list ustr) :
  List.filter is_sleep (visit_events (i + length us) i us)
  = replicate (length us - 1) (EvRandomSleep 2 5).
Proof.
  revert i. induction us as [|u rest IH]; intros i; [reflexivity|].
  cbn [visit_events length List.filter is_sleep].
  rewrite List.filter_app.
  replace (i + S (length rest))%nat with (S i + length rest)%nat by lia.
  rewrite IH. unfold pause_events.
  destruct rest as [|u' rest].
  - cbn [length]. replace (Z.of_nat i <? Z.of_nat (S i + 0) - 1) with false
      by (symmetry; apply Z.ltb_ge; lia).
    reflexivity.
  - cbn [length]. replace (Z.of_nat i <? Z.of_nat (S i + S (length rest)) - 1)
      with true by (symmetry; apply Z.ltb_lt; lia).
    cbn. by rewrite Nat.sub_0_r.
Qed.

Lemma attempted_urls_visit_events (total i : nat) (us : list ustr) :
  omap (fun ev => match ev with EvAttempt u _ => Some u | _ => None end)
       (visit_events total i us) = us.
Proof.
  revert i. induction us as [|u us IH]; intros i; [reflexivity|].
  cbn [visit_events]. cbn. rewrite omap_app, IH. unfold pause_events.
  by destruct (Z.of_nat i <? Z.of_nat total - 1).
Qed.

Lemma url_loop_first_cycle G config i us lss rest w :
  page_script w = map Scraped lss ++ rest ->
  length lss = length us ->
  url_loop G config true i us w
  = (mk_world (store w) (session w) rest (lookup_script w) (commit_script w) (smtp_script w)
              (trace w ++ visit_events (length (urls config)) i us),
     Return tt).
Proof.
  revert i lss w. induction us as [|u us IH]; intros i lss w Hpages Hlen.
  - destruct lss; [|done]. destruct w; cbn in *. subst. by rewrite app_nil_r.
  - destruct lss as [|ls lss]; [done|]. cbn in Hpages. injection Hlen as Hlen.
    cbn [url_loop visit_events].
    rewrite (bind_return _ _ _ _ _
               (retry_loop_first_attempt_loads G config i u ls w
                  (map Scraped lss ++ rest) Hpages)).
    erewrite IH; [|reflexivity|exact Hlen]. cbn.
    f_equal. f_equal. by rewrite <- app_assoc.
Qed.

(** X4.  On a first cycle in which every page loads at the first attempt,
    each configured URL is attempted exactly once, in the configured order,
    and a pause of 2 to 5 seconds is taken between consecutive URLs and not
    after the last one; the table and the session are not touched. *)
Theorem first_cycle_one_attempt_per_url (G : gmap string pyobj)
    (config : Config) (lss : list (list db_listing_entry))
    (rest : list PageOutcome) (w : World) :
  page_script w = map Scraped lss ++ rest ->
  length lss = length (urls config) ->
  let evs := visit_events (length (urls config)) 0 (urls config) in
  url_loop G config true 0 (urls config) w
  = (mk_world (store w) (session w) rest (lookup_script w) (commit_script w) (smtp_script w)
              (trace w ++ evs),
     Return tt)
  /\ omap (fun ev => match ev with EvAttempt u _ => Some u | _ => None end) evs
     = urls config
  /\ List.filter is_sleep evs
     = replicate (length (urls config) - 1) (EvRandomSleep 2 5).
Proof.
  intros Hpages Hlen evs. split_and!.
  - exact (url_loop_first_cycle G config 0 (urls config) lss rest w Hpages Hlen).
  - apply attempted_urls_visit_events.
  - apply (filter_sleep_visit_events 0).
Qed.

Lemma first_cycle_one_attempt_per_url_witness :
  let u1 := U "https://example.org/one" in
  let u2 := U "https://example.org/two" in
  let u3 := U "https://example.org/three" in
  let config := mk_config [u1; u2; u3] (mk_email true) true in
  fst (url_loop main_globals config true 0 (urls config)
         (start ∅ [Scraped []; Scraped []; Scraped []] [] [] []))
  = mk_world ∅ ∅ [] [] [] []
      [ EvAttempt u1 0; EvRandomSleep 2 5; EvAttempt u2 0; EvRandomSleep 2 5;
        EvAttempt u3 0 ].
Proof.
  intros u1 u2 u3 config.
  destruct (first_cycle_one_attempt_per_url main_globals config [[]; []; []] []
              (start ∅ [Scraped []; Scraped []; Scraped []] [] [] [])
              eq_refl eq_refl) as [Hrun _].
  rewrite Hrun. reflexivity.
Defined.

(** X5.  A [KeyboardInterrupt] during the attempt at the first URL stops
    the loop at once, however many cycles were still to run: it is not
    logged as a browser error, not retried and not followed by a recovery
    sleep; the only events are the attempt and the shutdown line, and
    [initial_run] keeps its value. *)
Theorem interrupt_stops_the_loop (G : gmap string pyobj) (config : Config)
    (n : nat) (initial_run : bool) (u : ustr) (us : list ustr) (w : World) :
  urls config = u :: us ->
  hd Interrupted (page_script w) = Interrupted ->
  main_loop G config (S n) initial_run w
  = (mk_world (store w) (session w) (tail (page_script w)) (lookup_script w) (commit_script w)
              (smtp_script w)
              (trace w ++ [EvAttempt u 0; EvLog ShuttingDown]),
     Return initial_run).
Proof.
  intros Hurls Hpage. destruct w as [st se pages qs cs ss tr].
  cbn [main_loop]. unfold cycle. rewrite Hurls.
  destruct pages as [|p pages]; cbn in Hpage; [|subst p];
    cbn; rewrite <- ?app_assoc; reflexivity.
Qed.

Lemma interrupt_stops_the_loop_witness :
  let u := U "https://example.org/search/zip" in
  let config := mk_config [u] (mk_email true) true in
  main_loop main_globals config 5 false (start ∅ [Interrupted; Scraped []] [] [] [])
  = (mk_world ∅ ∅ [Scraped []] [] [] [] [EvAttempt u 0; EvLog ShuttingDown],
     Return false).
Proof.
  intros u config.
  apply (interrupt_stops_the_loop main_globals config 4 false u []
           (start ∅ [Interrupted; Scraped []] [] [] [])); reflexivity.
Defined.

(** ** Database errors are retried *)

Lemma attempt_failed_commit G config i url retry listings w pages cs :
  page_script w = Scraped listings :: pages ->
  commit_script w = false :: cs ->
  exists evs qs,
    attempt G config false i url retry w
    = (mk_world (store w) (store w) pages qs cs (smtp_script w)
                (trace w ++ EvAttempt url retry :: evs),
       Raised DatabaseError)
    /\ Forall (fun ev => is_attempt ev = false /\ is_sleep ev = false) evs.
Proof.
  intros Hpages Hcs. destruct w as [st se ps qs cs0 ss tr]. cbn in Hpages, Hcs.
  subst ps cs0.
  destruct (session_scope_failed_commit G listings config
              (mk_world st se pages qs (false :: cs) ss (tr ++ [EvAttempt url retry]))
              cs eq_refl) as (evs & nl & qs' & He & Hrun).
  exists (evs ++ failed_commit_events nl ++ [EvLog (BrowserError DatabaseError)]), qs'.
  split.
  - unfold attempt, get_browser. rewrite (bind_return _ _ _ _ _ (emit_add _ _)).
    unfold try_except, next_page. unfold bind at 1. cbn [page_script negb].
    unfold add_events. cbn [store session page_script lookup_script
                            commit_script smtp_script trace tail].
    rewrite (bind_raised _ _ _ _ _ Hrun). cbn.
    rewrite <- !app_assoc. reflexivity.
  - apply Forall_app. split.
    + eapply Forall_impl; [exact He|]. by intros [].
    + apply Forall_app. split; [destruct nl|]; by repeat constructor.
Qed.

Lemma retry_on_database_error G config initial_run i url retry rest w w1 :
  attempt G config initial_run i url retry w = (w1, Raised DatabaseError) ->
  retry_loop G config initial_run i url (retry :: rest) w
  = if (retry =? MAX_RETRIES - 1)%nat
    then (add_events w1 [EvLog DatabaseErrorWhileProcessing], Raised DatabaseError)
    else retry_loop G config initial_run i url rest
           (add_events w1 [EvLog DatabaseErrorWhileProcessing;
                           EvRandomSleep (5 * (Z.of_nat retry + 1))
                                         (10 * (Z.of_nat retry + 1))]).
Proof.
  intros Ha. cbn [retry_loop]. unfold try_except at 1. unfold bind at 1.
  rewrite (bind_raised _ _ _ _ _ Ha).
  destruct (retry =? MAX_RETRIES - 1)%nat; py_unfold; cbn.
  - reflexivity.
  - unfold add_events; cbn. by rewrite <- app_assoc.
Qed.

Lemma count_cons p (ev : Event) (t : list Event) :
  count p (ev :: t) = ((if p ev then 1 else 0) + count p t)%nat.
Proof. unfold count. cbn. by destruct (p ev). Qed.

(** X6.  When the commit of the policy fails on each of the three attempts
    at a URL, the URL is attempted three times, its page is loaded again for
    each attempt, sleeps of 5 to 10 and of 10 to 20 seconds separate the
    attempts, the table is left as it was, and the [DatabaseError] of the
    third attempt leaves the retry loop. *)
Theorem database_error_is_retried (G : gmap string pyobj) (config : Config)
    (i : nat) (url : ustr) (l1 l2 l3 : list db_listing_entry) (w : World)
    (pages : list PageOutcome) (cs : list bool) :
  page_script w = Scraped l1 :: Scraped l2 :: Scraped l3 :: pages ->
  commit_script w = false :: false :: false :: cs ->
  let run := retry_loop G config false i url (seq 0 MAX_RETRIES) w in
  snd run = Raised DatabaseError
  /\ store (fst run) = store w
  /\ page_script (fst run) = pages
  /\ commit_script (fst run) = cs
  /\ count is_attempt (new_events w (fst run)) = 3%nat
  /\ List.filter is_sleep (new_events w (fst run))
     = [EvRandomSleep 5 10; EvRandomSleep 10 20].
Proof.
  intros Hpages Hcs.
  destruct (attempt_failed_commit G config i url 0 l1 w _ _ Hpages Hcs)
    as (e1 & q1 & Ha1 & Hf1).
  cbv zeta. unfold MAX_RETRIES at 1 2 3 4 5 6. cbn [seq].
  rewrite (retry_on_database_error _ _ _ _ _ _ _ _ _ Ha1). cbn [Nat.eqb MAX_RETRIES Nat.sub].
  match goal with |- context [retry_loop _ _ _ _ _ _ ?w'] =>
    destruct (attempt_failed_commit G config i url 1 l2 w' _ _ eq_refl eq_refl)
      as (e2 & q2 & Ha2 & Hf2)
  end.
  rewrite (retry_on_database_error _ _ _ _ _ _ _ _ _ Ha2). cbn [Nat.eqb MAX_RETRIES Nat.sub].
  match goal with |- context [retry_loop _ _ _ _ _ _ ?w'] =>
    destruct (attempt_failed_commit G config i url 2 l3 w' _ _ eq_refl eq_refl)
      as (e3 & q3 & Ha3 & Hf3)
  end.
  rewrite (retry_on_database_error _ _ _ _ _ _ _ _ _ Ha3). cbn [Nat.eqb MAX_RETRIES Nat.sub].
  unfold add_events.
  cbn [fst snd store session page_script commit_script smtp_script trace].
  assert (Hc : forall e, Forall (fun ev => is_attempt ev = false /\ is_sleep ev = false) e ->
               count is_attempt e = 0%nat /\ List.filter is_sleep e = []).
  { intros e He. split.
    - apply count_zero. eapply Forall_impl; [exact He|]. by intros ev [].
    - induction He as [|ev e [_ Hs] _ IH]; cbn; [done|]. by rewrite Hs. }
  destruct (Hc e1 Hf1) as [Hc1 Hs1]. destruct (Hc e2 Hf2) as [Hc2 Hs2].
  destruct (Hc e3 Hf3) as [Hc3 Hs3].
  split_and!; try reflexivity.
  - unfold new_events. cbn [trace]. rewrite <- !app_assoc, drop_app_length.
    repeat (rewrite count_app || rewrite count_cons); cbn [is_attempt].
    rewrite Hc1, Hc2, Hc3. reflexivity.
  - unfold new_events. cbn [trace]. rewrite <- !app_assoc, drop_app_length.
    repeat (rewrite List.filter_app || cbn [List.filter is_sleep app]).
    by rewrite Hs1, Hs2, Hs3.
Qed.

Lemma database_error_is_retried_witness :
  let u := U "https://example.org/search/zip" in
  let config := mk_config [u] (mk_email true) true in
  let run := retry_loop main_globals config false 0 u (seq 0 MAX_RETRIES)
               (start ∅ [Scraped []; Scraped []; Scraped []] []
                        [false; false; false] []) in
  snd run = Raised DatabaseError
  /\ store (fst run) = ∅
  /\ page_script (fst run) = []
  /\ commit_script (fst run) = []
  /\ count is_attempt (trace (fst run)) = 3%nat
  /\ List.filter is_sleep (trace (fst run))
     = [EvRandomSleep 5 10; EvRandomSleep 10 20].
Proof.
  intros u config.
  destruct (database_error_is_retried main_globals config 0 u [] [] []
              (start ∅ [Scraped []; Scraped []; Scraped []] [] [false; false; false] [])
              [] [] eq_refl eq_refl) as (H1 & H2 & H3 & H4 & H5 & H6).
  split_and!; [exact H1 | exact H2 | exact H3 | exact H4 | exact H5 | exact H6].
Defined.

(** * Further properties of the session scope and of the policy *)

(** X7.  Whatever the body run in [session_scope] does: no SQLAlchemy error
    leaves the scope (a failed commit and a SQLAlchemy error of the body
    come out as [DatabaseError]); when an exception of class [Exception]
    leaves it, the last action on the session was a rollback; and in every
    case the session is closed with no change pending. *)
Theorem session_scope_wraps_errors {A : Type} (body : py A) (w : World) :
  let run := session_scope body w in
  (forall e, snd run = Raised e -> is_SQLAlchemyError e = false)
  /\ (forall e, snd run = Raised e -> is_Exception e = true ->
      exists t, trace (fst run) = t ++ [EvRollback])
  /\ session (fst run) = store (fst run).
Proof.
  cbv zeta. unfold session_scope. py_unfold. unfold set_session.
  cbv beta iota.
  match goal with |- context [body ?w0] =>
    destruct (body w0) as [w1 [a|e]]
  end.
  - destruct w1 as [st se pages qs [|[] cs] ss tr]; py_unfold; cbn;
      (split_and!; [ | |reflexivity]); intros e He; try discriminate He.
    + by injection He as <-.
    + intros _. by eexists.
  - destruct w1 as [st se pages qs cs ss tr].
    destruct e; py_unfold; cbn;
      (split_and!; [ | |reflexivity]); intros e' He'; try discriminate He';
      try (injection He' as <-; try done; intros _; by eexists).
Qed.

(** X8.  Once the commit of line 368 has succeeded, the failure of the
    notifications changes nothing: whatever the namespace and the records,
    [process_listings] returns normally, no rollback is issued, and the
    table is the view the merge loop produced (it is the table of before
    when the notify-set is empty). *)
Theorem notification_failure_keeps_the_commit (G : gmap string pyobj)
    (listings : list db_listing_entry) (config : Config) (w : World) :
  hd true (commit_script w) = true ->
  let w' := fst (process_listings G listings config w) in
  snd (process_listings G listings config w) = Return tt
  /\ count is_rollback (new_events w w') = 0%nat
  /\ exists new_listings,
       snd (merge_loop G listings [] w) = Return new_listings
       /\ store w' = match new_listings with
                     | [] => store w
                     | _ => session (fst (merge_loop G listings [] w))
                     end.
Proof.
  intros Hc.
  destruct (merge_loop_frame G listings [] w) as (w1 & nl & evs & Hm & Hs & He).
  assert (Hr : count is_rollback evs = 0%nat).
  { apply count_zero. eapply Forall_impl; [exact He|]. by intros []. }
  cbv zeta. rewrite Hm. cbn [fst snd].
  destruct nl as [|k nl].
  - assert (Hp : process_listings G listings config w = (w1, Return tt)).
    { unfold process_listings, try_except.
      by rewrite (bind_return _ _ _ _ _ Hm). }
    rewrite Hp. cbn [fst snd]. split_and!; [done| |].
    + rewrite Hs. unfold new_events. cbn [trace]. by rewrite drop_app_length.
    + exists []. split; [done|]. by rewrite Hs.
  - assert (Hc1 : hd true (commit_script w1) = true) by (by rewrite Hs).
    destruct (commit_and_notify_committed (k :: nl) config w1 ltac:(done) Hc1)
      as (w2 & sends & Hcn & Hst2 & Hse2 & Htr2 & Hsends).
    assert (Hp : process_listings G listings config w = (w2, Return tt)).
    { unfold process_listings. apply try_except_return.
      by rewrite (bind_return _ _ _ _ _ Hm). }
    rewrite Hp. cbn [fst snd]. split_and!; [done| |].
    + unfold new_events. rewrite Htr2, Hs. cbn [trace].
      rewrite <- app_assoc, drop_app_length, count_app, Hr, count_cons.
      cbn [is_rollback]. apply count_zero.
      eapply Forall_impl; [exact Hsends|]. by intros [].
    + exists (k :: nl). by split.
Qed.

Lemma notification_failure_keeps_the_commit_witness :
  let r := mk_listing (U "https://example.org/zip/d/sofa/7001234567.html")
                      (U "sofa") (U "7001234567") [] (U "3h ago")
                      (U "Brooklyn") (U "2024-01-01 00:00:00") false in
  let config := mk_config [U "https://example.org/search/zip"]
                          (mk_email true) true in
  let G := <["db" := MappedClass]> main_globals in
  let run := process_listings G [r] config (start ∅ [] [] [] [false]) in
  snd run = Return tt
  /\ store (fst run) !! U "7001234567" = Some r
  /\ count is_failed_notification (trace (fst run)) = 1%nat
  /\ count is_rollback (trace (fst run)) = 0%nat.
Proof.
  intros r config G run.
  destruct (notification_failure_keeps_the_commit G [r] config
              (start ∅ [] [] [] [false]) eq_refl) as (H1 & H2 & _).
  split_and!; [exact H1 | vm_compute; reflexivity | vm_compute; reflexivity
               | exact H2].
Defined.

(** ** Inserts *)

Lemma added_ids_app a b : added_ids (a ++ b) = added_ids a ++ added_ids b.
Proof. unfold added_ids. apply omap_app. Qed.

(** One record: at most one insert, of an identity the session did not
    hold and holds afterwards; what the session held it still holds. *)
Lemma merge_listing_adds G l nl w :
  exists w1 r evs,
    merge_listing G l nl w = (w1, r)
    /\ session_step w w1 evs
    /\ (forall k, is_Some (session w !! k) -> is_Some (session w1 !! k))
    /\ (forall k, k ∈ added_ids evs ->
          added_ids evs = [k] /\ session w !! k = None
          /\ is_Some (session w1 !! k)).
Proof.
  unfold merge_listing, query_first, load_global.
  destruct w as [st se pages qs cs ss tr].
  destruct (G !! "db") as [[|]|]; py_unfold; cbn.
  - destruct (hd true qs); cbn;
      [|eexists _, _, []; split_and!; [reflexivity| |done|];
        [unfold session_step; cbn; by rewrite app_nil_r
        |intros k Hk; by apply elem_of_nil in Hk]].
    destruct (se !! cl_id l) as [row|] eqn:Hrow; cbn;
      [destruct (notified row); cbn|].
    + eexists _, _, []. split_and!; [reflexivity| |done|].
      * unfold session_step; cbn. by rewrite app_nil_r.
      * intros k Hk. by apply elem_of_nil in Hk.
    + eexists _, _, [EvSetNotified (cl_id l)].
      split_and!; [reflexivity| | |].
      * unfold session_step; cbn. reflexivity.
      * intros k Hk. cbn. rewrite lookup_alter. case_decide; [|done].
        subst k. rewrite Hrow. by eexists.
      * intros k Hk. by apply elem_of_nil in Hk.
    + eexists _, _, [EvAdd l; EvLog (NewListing (title l))].
      split_and!; [reflexivity| | |].
      * unfold session_step; cbn. by rewrite <- app_assoc.
      * intros k [r Hk]. cbn. destruct (decide (cl_id l = k)) as [->|Hne].
        -- rewrite lookup_insert_eq. by eexists.
        -- rewrite lookup_insert_ne by done. by eexists.
      * intros k Hk. cbn in Hk. apply list_elem_of_singleton in Hk. subst k.
        split_and!; [done|done|]. cbn. rewrite lookup_insert_eq. by eexists.
  - eexists _, _, []. split_and!; [reflexivity| |done|].
    + unfold session_step; cbn. by rewrite app_nil_r.
    + intros k Hk. by apply elem_of_nil in Hk.
  - eexists _, _, []. split_and!; [reflexivity| |done|].
    + unfold session_step; cbn. by rewrite app_nil_r.
    + intros k Hk. by apply elem_of_nil in Hk.
Qed.

Lemma merge_loop_adds G listings nl w :
  exists w1 nl1 evs,
    merge_loop G listings nl w = (w1, Return nl1)
    /\ session_step w w1 evs
    /\ (forall k, is_Some (session w !! k) -> is_Some (session w1 !! k))
    /\ NoDup (added_ids evs)
    /\ (forall k, k ∈ added_ids evs ->
          session w !! k = None /\ is_Some (session w1 !! k)).
Proof.
  revert nl w. induction listings as [|l rest IH]; intros nl w;
    cbn [merge_loop].
  - exists w, nl, []. split_and!; try done.
    + apply session_step_refl.
    + constructor.
    + intros k Hk. by apply elem_of_nil in Hk.
  - destruct (merge_listing_adds G l nl w)
      as (w1 & r & evs1 & Hm & Hs1 & Hk1 & Ha1).
    assert (Hstep : exists w2 nl2 evs2,
      try_except (merge_listing G l nl)
        (fun e => if is_Exception e
                  then Some (let* _ := log (ErrorProcessingListing (title l) e) in
                             ret nl)
                  else None) w = (w2, Return nl2)
      /\ session_step w w2 evs2
      /\ session w2 = session w1
      /\ added_ids evs2 = added_ids evs1).
    { destruct (merge_listing_frame G l nl w) as (w1' & r' & evs1' & Hm' & _ & _ & Hr).
      rewrite Hm in Hm'. injection Hm' as <- <-.
      unfold try_except. rewrite Hm. destruct r as [nl1|e].
      - by exists w1, nl1, evs1.
      - rewrite (Hr e eq_refl).
        exists (add_events w1 [EvLog (ErrorProcessingListing (title l) e)]),
               nl, (evs1 ++ [EvLog (ErrorProcessingListing (title l) e)]).
        split_and!; [reflexivity| |reflexivity|].
        + eapply session_step_trans; [exact Hs1|]. reflexivity.
        + rewrite added_ids_app. cbn. by rewrite app_nil_r. }
    destruct Hstep as (w2 & nl2 & evs2 & Hstep & Hs2 & Hse2 & Hadd2).
    rewrite (bind_return _ _ _ _ _ Hstep).
    destruct (IH nl2 w2) as (w3 & nl3 & evs3 & Hrest & Hs3 & Hk3 & Hnd3 & Ha3).
    exists w3, nl3, (evs2 ++ evs3).
    rewrite Hse2 in Hk3, Ha3. rewrite added_ids_app, Hadd2.
    split_and!; try done.
    + by eapply session_step_trans.
    + intros k Hk. by apply Hk3, Hk1.
    + apply NoDup_app. split_and!; [|intros k Hk Hk'|done].
      * destruct (added_ids evs1) as [|k ks] eqn:Hids; [constructor|].
        destruct (Ha1 k ltac:(left)) as ([= ->] & _). apply NoDup_singleton.
      * destruct (Ha1 k Hk) as (_ & _ & Hin). destruct (Ha3 k Hk') as [Hnone _].
        rewrite Hnone in Hin. by destruct Hin.
    + intros k Hk. apply elem_of_app in Hk as [Hk|Hk].
      * destruct (Ha1 k Hk) as (_ & Hnone & Hin). split; [done|]. by apply Hk3.
      * destruct (Ha3 k Hk) as [Hnone Hin]. split; [|done].
        destruct (session w !! k) eqn:Hw; [|done].
        destruct (Hk1 k ltac:(by eexists)) as [? Hcontra]. congruence.
Qed.

(** X9.  In one run of the merge loop, whatever the namespace and the
    batch: a row is inserted only for an identity the session does not hold
    yet, no identity is inserted twice even when the batch lists it several
    times, and no row the session held is lost. *)
Theorem merge_loop_inserts_each_identity_once (G : gmap string pyobj)
    (listings : list db_listing_entry) (nl : list ustr) (w : World) :
  let w1 := fst (merge_loop G listings nl w) in
  let ids := added_ids (new_events w w1) in
  NoDup ids
  /\ (forall k, k ∈ ids -> session w !! k = None /\ is_Some (session w1 !! k))
  /\ (forall k, is_Some (session w !! k) -> is_Some (session w1 !! k)).
Proof.
  destruct (merge_loop_adds G listings nl w)
    as (w1 & nl1 & evs & Hm & Hs & Hk & Hnd & Ha).
  cbv zeta. rewrite Hm. cbn [fst].
  replace (new_events w w1) with evs; [done|].
  rewrite Hs. unfold new_events. cbn [trace]. by rewrite drop_app_length.
Qed.




(** ** Invariants of the table *)

Section session_invariant.

Variable I : gmap ustr db_listing_entry -> gmap ustr db_listing_entry -> Prop.

Hypothesis I_add :
  forall st se l, I st se -> se !! cl_id l = None -> I st (<[cl_id l := l]> se).
Hypothesis I_flag :
  forall st se k r,
    I st se -> se !! k = Some r -> notified r = false ->
    I st (alter set_notified k se).
Hypothesis I_commit : forall st se, I st se -> I se se.
Hypothesis I_rollback : forall st se, I st se -> I st st.

Lemma holds_in_unchanged {A} (m : py A) :
  (forall w, store (fst (m w)) = store w /\ session (fst (m w)) = session w) ->
  preserves (holds_in I) m.
Proof.
  intros Hm w Hw. unfold holds_in in *. destruct (Hm w) as [-> ->]. exact Hw.
Qed.

Lemma holds_in_emit ev : preserves (holds_in I) (emit ev).
Proof. by apply holds_in_unchanged. Qed.

Lemma holds_in_commit : preserves (holds_in I) session_commit.
Proof.
  intros [st se pages qs cs ss tr] Hw. unfold holds_in in *. cbn in *.
  destruct cs as [|[] cs]; cbn; eauto.
Qed.

Lemma holds_in_rollback : preserves (holds_in I) session_rollback.
Proof. intros [st se pages qs cs ss tr] Hw. unfold holds_in in *. cbn in *. eauto. Qed.

Lemma holds_in_merge_listing G l nl :
  preserves (holds_in I) (merge_listing G l nl).
Proof.
  intros [st se pages qs cs ss tr] Hw. unfold holds_in in *. cbn in Hw.
  unfold merge_listing, query_first, load_global.
  destruct (G !! "db") as [[|]|]; py_unfold; cbn; try done.
  destruct (hd true qs); cbn; [|done].
  destruct (se !! cl_id l) as [row|] eqn:Hrow; cbn.
  - destruct (notified row) eqn:Hn; cbn; [done|]. by eapply I_flag.
  - by apply I_add.
Qed.

Lemma holds_in_merge_loop G listings nl :
  preserves (holds_in I) (merge_loop G listings nl).
Proof.
  revert nl. induction listings as [|l rest IH]; intros nl; cbn [merge_loop].
  - apply preserves_ret.
  - apply preserves_bind; [|intros nl'; apply IH].
    apply preserves_try_except; [apply holds_in_merge_listing|].
    intros e h Hh. destruct (is_Exception e); [|done]. injection Hh as <-.
    apply preserves_bind; [apply holds_in_emit|intros _; apply preserves_ret].
Qed.

Lemma holds_in_send_notification batch config :
  preserves (holds_in I) (send_notification batch config).
Proof.
  apply holds_in_unchanged. intros w.
  destruct (send_notification_step batch config w) as (w' & s & Hs & H1 & H2 & _).
  by rewrite Hs.
Qed.

Lemma holds_in_notify_each refs config :
  preserves (holds_in I) (notify_each refs config).
Proof.
  apply holds_in_unchanged. intros w.
  destruct (notify_each_step refs config w) as (w' & s & Hs & H1 & H2 & _).
  by rewrite Hs.
Qed.

Lemma holds_in_commit_and_notify refs config :
  preserves (holds_in I) (commit_and_notify refs config).
Proof.
  unfold commit_and_notify. destruct refs as [|k refs]; [apply preserves_ret|].
  apply preserves_bind; [apply holds_in_commit|intros _].
  apply preserves_try_except.
  - apply preserves_if; [|apply holds_in_notify_each].
    intros w Hw. rewrite (bind_return _ _ _ _ _ (deref_run (k :: refs) w)).
    by apply holds_in_send_notification.
  - intros e h Hh. destruct (is_Exception e); [|done]. injection Hh as <-.
    apply holds_in_emit.
Qed.

Lemma holds_in_process_listings G listings config :
  preserves (holds_in I) (process_listings G listings config).
Proof.
  unfold process_listings. apply preserves_try_except.
  - apply preserves_bind; [apply holds_in_merge_loop|].
    intros nl. apply holds_in_commit_and_notify.
  - intros e h Hh. destruct (is_Exception e); [|done]. injection Hh as <-.
    apply preserves_bind; [apply holds_in_emit|intros _].
    apply preserves_bind; [apply holds_in_rollback|intros _].
    apply preserves_raise.
Qed.

Lemma holds_of_table_process G config :
  process_keeps G config (holds_of_table I).
Proof.
  intros listings w Hw. unfold session_scope.
  erewrite bind_return by reflexivity.
  assert (Hin : preserves (holds_in I)
    (try_finally
       (try_except
          (let* a := process_listings G listings config in
           let* _ := session_commit in
           ret a)
          (fun e =>
             if is_SQLAlchemyError e then
               Some (let* _ := log (SessionDatabaseError e) in
                     let* _ := session_rollback in
                     raise DatabaseError)
             else if is_Exception e then
               Some (let* _ := log (SessionUnexpectedError e) in
                     let* _ := session_rollback in
                     raise e)
             else None))
       (fun w0 => (w0, Return tt)))).
  { apply preserves_try_finally; [|by intros w0 H0].
    apply preserves_try_except.
    - apply preserves_bind; [apply holds_in_process_listings|intros a].
      apply preserves_bind; [apply holds_in_commit|intros _].
      apply preserves_ret.
    - intros e h Hh.
      destruct (is_SQLAlchemyError e); [|destruct (is_Exception e); [|done]];
        injection Hh as <-;
        (apply preserves_bind; [apply holds_in_emit|intros _]);
        (apply preserves_bind; [apply holds_in_rollback|intros _]);
        apply preserves_raise. }
  unfold holds_of_table in *.
  set (w0 := mk_world (store w) (store w) (page_script w) (lookup_script w) (commit_script w)
                      (smtp_script w) (trace w)).
  specialize (Hin w0 Hw). unfold holds_in in Hin.
  unfold try_finally in *. unfold session_close, set_session.
  change (fst (open_session w, Return tt).1) with w0.
  match goal with |- context [try_except ?m ?h w0] =>
    destruct (try_except m h w0) as [w1 r]
  end.
  cbn in *. eauto.
Qed.

Lemma holds_of_table_main_loop G config n initial_run :
  preserves (holds_of_table I) (main_loop G config n initial_run).
Proof.
  apply preserves_main_loop.
  - by intros ev _ w Hw.
  - by intros w Hw.
  - apply holds_of_table_process.
Qed.

End session_invariant.

Lemma set_notified_idemp r : set_notified (set_notified r) = set_notified r.
Proof. reflexivity. Qed.

Lemma extends_refl m : extends m m.
Proof. intros k r Hr. exists r. split; [done|by left]. Qed.

Lemma extends_insert T m l :
  extends T m -> m !! cl_id l = None -> extends T (<[cl_id l := l]> m).
Proof.
  intros Hm Hnone k r Hr. destruct (Hm k r Hr) as (r' & Hr' & Hk).
  exists r'. split; [|done]. rewrite lookup_insert_ne; [done|].
  intros <-. congruence.
Qed.

Lemma extends_alter T m k : extends T m -> extends T (alter set_notified k m).
Proof.
  intros Hm k' r Hr. destruct (Hm k' r Hr) as (r' & Hr' & Hk).
  rewrite lookup_alter. case_decide as Heq.
  - subst k'. rewrite Hr'. exists (set_notified r'). split; [done|].
    right. destruct Hk as [->| ->]; [done|apply set_notified_idemp].
  - by exists r'.
Qed.

(** X11.  The table is only ever appended to and flagged: over any run of
    the loop, in any namespace, every row of the table at the start is still
    there at the end, under the same identity and with the same fields,
    except that its [notified] flag may have gone from [False] to [True]
    (rows are never deleted, a set flag is never reset, and the other fields
    of a stored row are never refreshed). *)
Theorem table_rows_are_kept (G : gmap string pyobj) (config : Config)
    (n : nat) (initial_run : bool) (w : World) :
  extends (store w) (store (fst (main_loop G config n initial_run w))).
Proof.
  pose (I := fun st se : gmap ustr db_listing_entry =>
               extends (store w) st /\ extends (store w) se).
  assert (H : holds_of_table I (fst (main_loop G config n initial_run w))).
  { apply (holds_of_table_main_loop I).
    - intros st se l [H1 H2] Hl. split; [done|by apply extends_insert].
    - intros st se k r [H1 H2] _ _. split; [done|by apply extends_alter].
    - by intros st se [H1 H2].
    - by intros st se [H1 H2].
    - split; apply extends_refl. }
  apply H.
Qed.



(** * Further properties of the extraction *)

Lemma starts_with_app (p q : ustr) : starts_with p (p ++ q) = true.
Proof. induction p as [|a p IH]; cbn; [done|]. by rewrite N.eqb_refl. Qed.

Lemma removesuffix_app (suffix s : ustr) : removesuffix suffix (s ++ suffix) = s.
Proof.
  unfold removesuffix. rewrite rev_app_distr, starts_with_app.
  rewrite length_app. replace (length s + length suffix - length suffix)%nat
    with (length s) by lia.
  by rewrite take_app_length.
Qed.

Lemma split_from_nonempty sep skip cur s : split_from sep skip cur s <> [].
Proof.
  revert skip cur. induction s as [|c s IH]; intros skip cur; cbn; [done|].
  destruct skip; [|apply IH]. by destruct (starts_with sep (c :: s)).
Qed.

Lemma split_from_char_absent (c : N) (cur s : ustr) :
  ~ In c s -> split_from [c] O cur s = [rev cur ++ s].
Proof.
  revert cur. induction s as [|x s IH]; intros cur Hs; cbn [split_from].
  - by rewrite app_nil_r.
  - assert (Hx : N.eqb c x = false).
    { apply N.eqb_neq. intros <-. apply Hs. by left. }
    cbn [starts_with]. rewrite Hx.
    rewrite IH; [|intros Hin; apply Hs; by right].
    cbn [rev]. by rewrite <- app_assoc.
Qed.

Lemma last_split_from_char (c : N) (cur base seg : ustr) :
  ~ In c seg ->
  List.last (split_from [c] O cur (base ++ c :: seg)) [] = seg.
Proof.
  intros Hseg. revert cur. induction base as [|x base IH]; intros cur.
  - cbn [app split_from starts_with length Nat.sub]. rewrite N.eqb_refl.
    rewrite (split_from_char_absent c [] seg Hseg). reflexivity.
  - cbn [app split_from starts_with length Nat.sub].
    destruct (N.eqb c x).
    + pose proof (split_from_nonempty [c] O [] (base ++ c :: seg)) as Hne.
      specialize (IH []).
      destruct (split_from [c] O [] (base ++ c :: seg)) as [|p ps]; [done|].
      exact IH.
    + apply IH.
Qed.

(** X13.  The identity of a record is the last path segment of its link
    without the suffix [.html]: for a link [base/name.html] in which [name]
    holds no slash, [cl_id] is [name]; the record is built with
    [notified = False], an empty [screenshot_path] and the time stamp of
    the cycle. *)
Theorem identity_is_last_segment (d : listing_data) (timestamp base name : ustr) :
  ld_link d = base ++ U "/" ++ name ++ U ".html" ->
  ~ In 47%N name ->
  let r := make_listing d timestamp in
  cl_id r = name
  /\ notified r = false
  /\ screenshot_path r = []
  /\ time_scraped r = timestamp.
Proof.
  intros Hlink Hname. split_and!; try reflexivity.
  unfold make_listing. cbn [cl_id]. rewrite Hlink. unfold split.
  change (U "/") with [47%N]. change (U ".html") with [46; 104; 116; 109; 108]%N.
  cbn [app].
  rewrite (last_split_from_char 47 [] base (name ++ [46; 104; 116; 109; 108]%N)).
  - apply removesuffix_app.
  - intros Hin. apply in_app_or in Hin as [Hin|Hin]; [done|].
    cbn in Hin. intuition discriminate.
Qed.

Lemma identity_is_last_segment_witness :
  cl_id (make_listing
           (mk_listing_data (U "widget")
              (U "https://example.org/abc/d/widget/7001234567.html")
              (U "3h ago") (U "Brooklyn"))
           (U "2024-01-01 00:00:00"))
  = U "7001234567".
Proof.
  apply (identity_is_last_segment
           (mk_listing_data (U "widget")
              (U "https://example.org/abc/d/widget/7001234567.html")
              (U "3h ago") (U "Brooklyn"))
           (U "2024-01-01 00:00:00")
           (U "https://example.org/abc/d/widget") (U "7001234567")).
  - reflexivity.
  - vm_compute. intuition discriminate.
Defined.

(** X14.  An element whose meta text does not contain the character
    U+00C2 yields no record, whatever its title and its link: the split of
    line 214 returns the text in one piece and [location] is undefined.  This
    is the case of every text whose parts are separated by a plain middle
    dot. *)
Theorem no_record_without_source_separator (el : Element) (text : ustr) :
  meta el = Some text ->
  ~ In 194%N text ->
  meta_fields text = (text, None) /\ evaluate_listing el = None.
Proof.
  intros Hmeta Htext.
  assert (Hf : meta_fields text = (text, None)).
  { unfold meta_fields, split.
    by rewrite (split_from_without_separator [] text Htext). }
  split; [exact Hf|].
  unfold evaluate_listing. rewrite Hmeta, Hf.
  by destruct (posting_title el) as [[t h]|].
Qed.

Lemma no_record_without_source_separator_witness :
  evaluate_listing
    (mk_element (Some (U "sofa", U "https://example.org/zip/d/sofa/1.html"))
                (Some (U "3h ago " ++ [MIDDLE_DOT] ++ U " Brooklyn")))
  = None.
Proof.
  apply (no_record_without_source_separator _
           (U "3h ago " ++ [MIDDLE_DOT] ++ U " Brooklyn")).
  - reflexivity.
  - vm_compute. intuition discriminate.
Defined.

Lemma split_from_first_separator (cur a s : ustr) :
  ~ In 194%N a ->
  split_from SEPARATOR O cur (a ++ SEPARATOR ++ s)
  = (rev cur ++ a) :: split_from SEPARATOR O [] s.
Proof.
  intros Ha. revert cur. induction a as [|c a IH]; intros cur.
  - cbn. by rewrite app_nil_r.
  - assert (Hc : N.eqb 194 c = false).
    { apply N.eqb_neq. intros <-. apply Ha. by left. }
    cbn [app split_from]. unfold SEPARATOR at 1. cbn [starts_with]. rewrite Hc.
    rewrite IH; [|intros Hin; apply Ha; by right].
    cbn [rev]. by rewrite <- app_assoc.
Qed.

(** X15.  Only the first two pieces of the meta text are used: when the
    separator of the source occurs twice or more, [posted_time] is the text
    before its first occurrence, [location] the text between the first and
    the second, and whatever follows the second is dropped. *)
Theorem meta_fields_drop_further_pieces (a b c : ustr) :
  ~ In 194%N a ->
  ~ In 194%N b ->
  meta_fields (a ++ SEPARATOR ++ b ++ SEPARATOR ++ c) = (a, Some b).
Proof.
  intros Ha Hb. unfold meta_fields, split.
  rewrite (split_from_first_separator [] a _ Ha).
  rewrite (split_from_first_separator [] b _ Hb). reflexivity.
Qed.

Lemma meta_fields_drop_further_pieces_witness :
  meta_fields (U "3h ago " ++ SEPARATOR ++ U " Brooklyn " ++ SEPARATOR
               ++ U " pic")
  = (U "3h ago ", Some (U " Brooklyn ")).
Proof.
  apply (meta_fields_drop_further_pieces (U "3h ago ") (U " Brooklyn ") (U " pic"));
    vm_compute; intuition discriminate.
Defined.

(** ** Trimming *)

Lemma trim_start_head s c rest :
  trim_start s = c :: rest -> is_js_space c = false.
Proof.
  induction s as [|x s IH]; cbn [trim_start]; [done|].
  destruct (is_js_space x) eqn:Hx; [exact IH|].
  by intros [= <- _].
Qed.

Lemma trim_start_suffix s : exists pre, s = pre ++ trim_start s.
Proof.
  induction s as [|x s [pre IH]]; cbn [trim_start]; [by exists []|].
  destruct (is_js_space x).
  - exists (x :: pre). cbn. by rewrite <- IH.
  - by exists [].
Qed.

Lemma trim_no_outer_space s : no_outer_space (trim s).
Proof.
  unfold trim. split.
  - intros c rest Hrev.
    apply (f_equal (@rev N)) in Hrev. rewrite rev_involutive in Hrev.
    cbn [rev] in Hrev.
    destruct (trim_start_suffix (rev (trim_start s))) as [pre Hpre].
    rewrite Hrev in Hpre.
    apply (f_equal (@rev N)) in Hpre. rewrite rev_involutive in Hpre.
    rewrite !rev_app_distr, rev_involutive in Hpre. cbn in Hpre.
    by apply (trim_start_head s c _ Hpre).
  - intros c init Hrev.
    apply (f_equal (@rev N)) in Hrev. rewrite rev_involutive in Hrev.
    rewrite rev_app_distr in Hrev. cbn in Hrev.
    by apply (trim_start_head _ c _ Hrev).
Qed.

(** X16.  When the snippet does return the data of an element, the title
    and the link are the text and the [href] of its title element as they
    are, while [posted_time] and [location] are trimmed: neither starts nor
    ends with a white-space character. *)
Theorem extracted_fields (el : Element) (d : listing_data) :
  evaluate_listing el = Some d ->
  posting_title el = Some (ld_title d, ld_link d)
  /\ no_outer_space (ld_posted_time d)
  /\ no_outer_space (ld_location d).
Proof.
  unfold evaluate_listing.
  destruct (meta el) as [text|]; [|done].
  destruct (meta_fields text) as [p [loc|]];
    destruct (posting_title el) as [[t h]|]; try done.
  intros [= <-]. cbn. split_and!; [done | apply trim_no_outer_space..].
Qed.

Lemma extracted_fields_witness :
  let el := mk_element (Some (U " sofa ", U "https://example.org/zip/d/sofa/1.html"))
                       (Some (U "  3h ago " ++ SEPARATOR ++ U " Brooklyn  ")) in
  evaluate_listing el
  = Some (mk_listing_data (U " sofa ") (U "https://example.org/zip/d/sofa/1.html")
                          (U "3h ago") (U "Brooklyn"))
  /\ no_outer_space (U "3h ago") /\ no_outer_space (U "Brooklyn").
Proof.
  intros el. split; [reflexivity|].
  destruct (extracted_fields el
              (mk_listing_data (U " sofa ") (U "https://example.org/zip/d/sofa/1.html")
                               (U "3h ago") (U "Brooklyn")) eq_refl)
    as (_ & H1 & H2).
  split; [exact H1 | exact H2].
Defined.

(** * Properties of the SMTP retries *)

Module smtp_facts.
Import smtp.




(** X19.  When the server drops the connection on all three attempts, the
    call connects three times, sleeps five seconds twice (not after the
    last attempt), logs the failure and raises the connection error. *)
Theorem three_connection_errors (rest : list SmtpOutcome) (m : Mailer) :
  outcomes m = ConnectionError :: ConnectionError :: ConnectionError :: rest ->
  send_email true m
  = (mk_mailer rest
       (events m ++ [ SmtpConnect 0; LogConnectionError 1; Sleep 5;
                      SmtpConnect 1; LogConnectionError 2; Sleep 5;
                      SmtpConnect 2; LogFailedToSend ]),
     Failed SMTPConnectionError).
Proof.
  intros Hm. destruct m as [os evs]. cbn in Hm. subst os.
  unfold send_email. cbn. by rewrite <- !app_assoc.
Qed.

Lemma three_connection_errors_witness :
  snd (send_email true
         (mk_mailer [ConnectionError; ConnectionError; ConnectionError; Delivered] []))
  = Failed SMTPConnectionError.
Proof.
  rewrite (three_connection_errors [Delivered]
             (mk_mailer [ConnectionError; ConnectionError; ConnectionError; Delivered] [])
             eq_refl).
  reflexivity.
Defined.

End smtp_facts.

(** * Properties of the validation *)

Module re_facts.
Import re.

Lemma lang_never_inv s : lang Never s -> False.
Proof. inversion 1. Qed.

Lemma lang_empty_inv s : lang Empty s -> s = [].
Proof. by inversion 1. Qed.

Lemma lang_class_inv p s : lang (Class p) s -> exists c, s = [c] /\ p c = true.
Proof. inversion 1; subst. by eexists. Qed.

Lemma lang_seq_inv r1 r2 s :
  lang (Seq r1 r2) s -> exists s1 s2, s = s1 ++ s2 /\ lang r1 s1 /\ lang r2 s2.
Proof. inversion 1; subst. by eexists _, _. Qed.

Lemma lang_or_inv r1 r2 s : lang (Or r1 r2) s -> lang r1 s \/ lang r2 s.
Proof. inversion 1; subst; [by left|by right]. Qed.

Lemma nullable_spec r : nullable r = true <-> lang r [].
Proof.
  induction r as [| |p|r1 IH1 r2 IH2|r1 IH1 r2 IH2|r IH]; cbn.
  - split; [done|]. intros H. by apply lang_never_inv in H.
  - split; [constructor|done].
  - split; [done|]. intros H. by apply lang_class_inv in H as (c & Hc & _).
  - rewrite andb_true_iff, IH1, IH2. split.
    + intros [H1 H2]. by apply (lang_seq r1 r2 [] []).
    + intros H. apply lang_seq_inv in H as (s1 & s2 & Heq & H1 & H2).
      symmetry in Heq. apply app_eq_nil in Heq as [-> ->]. by split.
  - rewrite orb_true_iff, IH1, IH2. split.
    + intros [H|H]; [by apply lang_or_l|by apply lang_or_r].
    + apply lang_or_inv.
  - split; [constructor|done].
Qed.

Lemma star_cons r c s :
  lang (Star r) (c :: s) ->
  exists s1 s2, s = s1 ++ s2 /\ lang r (c :: s1) /\ lang (Star r) s2.
Proof.
  intros H. remember (Star r) as r' eqn:Hr. remember (c :: s) as t eqn:Ht.
  induction H as [| | | | | |r0 s1 s2 H1 _ H2 IH2]; try discriminate.
  injection Hr as ->. destruct s1 as [|x s1].
  - cbn in Ht. by apply IH2.
  - cbn in Ht. injection Ht as -> <-. by exists s1, s2.
Qed.

Lemma deriv_spec c r s : lang (deriv c r) s <-> lang r (c :: s).
Proof.
  revert s. induction r as [| |p|r1 IH1 r2 IH2|r1 IH1 r2 IH2|r IH];
    intros s; cbn [deriv].
  - split; intros H; by apply lang_never_inv in H.
  - split; intros H; [by apply lang_never_inv in H|].
    by apply lang_empty_inv in H.
  - destruct (p c) eqn:Hp; split; intros H.
    + apply lang_empty_inv in H as ->. by constructor.
    + apply lang_class_inv in H as (x & [= -> ->] & _). constructor.
    + by apply lang_never_inv in H.
    + apply lang_class_inv in H as (x & [= -> ->] & Hx). congruence.
  - split; intros H.
    + apply lang_or_inv in H as [H|H].
      * apply lang_seq_inv in H as (s1 & s2 & -> & Ha & Hb).
        apply IH1 in Ha. by apply (lang_seq r1 r2 (c :: s1) s2).
      * destruct (nullable r1) eqn:Hn; [|by apply lang_never_inv in H].
        apply nullable_spec in Hn. apply IH2 in H.
        by apply (lang_seq r1 r2 [] (c :: s)).
    + apply lang_seq_inv in H as (s1 & s2 & Heq & Ha & Hb).
      destruct s1 as [|x s1].
      * cbn in Heq. subst s2. apply lang_or_r.
        apply nullable_spec in Ha. rewrite Ha. by apply IH2.
      * cbn in Heq. injection Heq as -> ->. apply lang_or_l.
        apply lang_seq; [by apply IH1|done].
  - split; intros H; apply lang_or_inv in H as [H|H];
      [apply lang_or_l; by apply IH1 | apply lang_or_r; by apply IH2
      |apply lang_or_l; by apply IH1 | apply lang_or_r; by apply IH2].
  - split; intros H.
    + apply lang_seq_inv in H as (s1 & s2 & -> & Ha & Hb).
      apply IH in Ha. by apply (lang_star_app r (c :: s1) s2).
    + apply star_cons in H as (s1 & s2 & -> & Ha & Hb).
      apply lang_seq; [by apply IH|done].
Qed.

(** The matcher computes the language of the expression. *)
Lemma accepts_spec r s : accepts r s = true <-> lang r s.
Proof.
  revert r. induction s as [|c s IH]; intros r; cbn [accepts].
  - apply nullable_spec.
  - rewrite IH. apply deriv_spec.
Qed.

End re_facts.

Module pattern_facts.
Import re re_facts.

Lemma lang_char c s : lang (char c) s <-> s = [c].
Proof.
  unfold char. split.
  - intros H. apply lang_class_inv in H as (x & -> & Hx).
    by apply N.eqb_eq in Hx as ->.
  - intros ->. constructor. apply N.eqb_refl.
Qed.

Lemma lang_literal l s : lang (literal l) s <-> s = l.
Proof.
  revert s. induction l as [|c l IH]; intros s; cbn.
  - split; [apply lang_empty_inv|intros ->; constructor].
  - split.
    + intros H. apply lang_seq_inv in H as (s1 & s2 & -> & H1 & H2).
      apply lang_char in H1 as ->. by apply IH in H2 as ->.
    + intros ->. apply (lang_seq _ _ [c] l); [by apply lang_char|by apply IH].
Qed.

Lemma lang_star_class p s :
  lang (Star (Class p)) s <-> Forall (fun c => p c = true) s.
Proof.
  split.
  - intros H. remember (Star (Class p)) as r eqn:Hr.
    induction H as [| | | | | |r0 s1 s2 H1 _ H2 IH2]; try discriminate.
    + constructor.
    + injection Hr as ->. apply lang_class_inv in H1 as (c & -> & Hc).
      constructor; [done|by apply IH2].
  - induction 1 as [|c s Hc _ IH]; [constructor|].
    apply (lang_star_app _ [c] s); [by constructor|done].
Qed.

Lemma lang_plus_class p s :
  lang (plus (Class p)) s <-> s <> [] /\ Forall (fun c => p c = true) s.
Proof.
  unfold plus. split.
  - intros H. apply lang_seq_inv in H as (s1 & s2 & -> & H1 & H2).
    apply lang_class_inv in H1 as (c & -> & Hc). apply lang_star_class in H2.
    split; [done|by constructor].
  - intros [Hne H]. destruct H as [|c s Hc H]; [done|].
    apply (lang_seq _ _ [c] s); [by constructor|by apply lang_star_class].
Qed.

Lemma lang_two_or_more_class p s :
  lang (two_or_more (Class p)) s
  <-> (2 <= length s)%nat /\ Forall (fun c => p c = true) s.
Proof.
  unfold two_or_more. split.
  - intros H. apply lang_seq_inv in H as (s1 & s2 & -> & H1 & H2).
    apply lang_seq_inv in H2 as (s3 & s4 & -> & H3 & H4).
    apply lang_class_inv in H1 as (c & -> & Hc).
    apply lang_class_inv in H3 as (d & -> & Hd).
    apply lang_star_class in H4. split; [cbn; lia|by repeat constructor].
  - intros [Hlen H]. destruct H as [|c s Hc H]; [cbn in Hlen; lia|].
    destruct H as [|d s Hd H]; [cbn in Hlen; lia|].
    apply (lang_seq _ _ [c] (d :: s)); [by constructor|].
    apply (lang_seq _ _ [d] s); [by constructor|by apply lang_star_class].
Qed.

(** [$] holds at the end of the string or before its final line feed. *)
Lemma match_anchored_spec body s :
  match_anchored body s = true
  <-> exists t nl, s = t ++ nl /\ lang body t /\ (nl = [] \/ nl = [10%N]).
Proof.
  unfold match_anchored. rewrite orb_true_iff, accepts_spec. split.
  - intros [H|H].
    + exists s, []. rewrite app_nil_r. by split_and!; [| |left].
    + destruct (rev s) as [|c init] eqn:Hrev; [done|].
      assert (Hc : c = 10%N).
      { destruct c as [|p]; [done|]. do 4 (destruct p as [p|p|]; try done). }
      subst c. apply accepts_spec in H.
      exists (rev init), [10%N]. split_and!; [|done|by right].
      apply (f_equal (@rev N)) in Hrev. rewrite rev_involutive in Hrev.
      by rewrite Hrev.
  - intros (t & nl & -> & Ht & [->| ->]).
    + left. by rewrite app_nil_r.
    + right. rewrite rev_app_distr. cbn. rewrite rev_involutive.
      by apply accepts_spec.
Qed.

(** X20.  The URLs [validate] accepts are exactly the strings made of
    [http://] or [https://], one character that is neither white space nor
    one of [/ $ . ? #], one character that is not a line feed (a space will
    do), and any number of characters that are not white space, optionally
    followed by one final line feed.  So a host of a single character is
    refused and a trailing line feed is let through. *)
Theorem accepted_urls (s : ustr) :
  url_pattern_match s = true
  <-> exists scheme x c rest nl,
        s = scheme ++ x :: c :: rest ++ nl
        /\ (scheme = U "http://" \/ scheme = U "https://")
        /\ is_py_space x = false
        /\ ~ In x [47; 36; 46; 63; 35]%N
        /\ c <> 10%N
        /\ Forall (fun d => is_py_space d = false) rest
        /\ (nl = [] \/ nl = [10%N]).
Proof.
  unfold url_pattern_match. rewrite match_anchored_spec. unfold url_body. split.
  - intros (t & nl & -> & Ht & Hnl).
    apply lang_seq_inv in Ht as (s1 & t1 & -> & H1 & Ht).
    apply lang_seq_inv in Ht as (s2 & t2 & -> & H2 & Ht).
    apply lang_seq_inv in Ht as (s3 & t3 & -> & H3 & Ht).
    apply lang_seq_inv in Ht as (s4 & t4 & -> & H4 & Ht).
    apply lang_seq_inv in Ht as (s5 & t5 & -> & H5 & H6).
    apply lang_literal in H1 as ->. apply lang_literal in H3 as ->.
    apply lang_class_inv in H4 as (x & -> & Hx).
    apply lang_class_inv in H5 as (c & -> & Hc).
    apply lang_star_class in H6.
    apply negb_true_iff, orb_false_iff in Hx as [Hx1 Hx2].
    apply negb_true_iff, N.eqb_neq in Hc.
    assert (Hx3 : ~ In x [47; 36; 46; 63; 35]%N).
    { intros Hin.
      assert (He : existsb (N.eqb x) [47; 36; 46; 63; 35]%N = true).
      { apply existsb_exists. exists x. split; [done|apply N.eqb_refl]. }
      congruence. }
    assert (H6' : Forall (fun d => is_py_space d = false) t5).
    { eapply Forall_impl; [exact H6|]. intros d Hd. by apply negb_true_iff in Hd. }
    apply lang_or_inv in H2 as [H2|H2].
    + apply lang_char in H2 as ->.
      exists (U "https://"), x, c, t5, nl.
      split_and!; try done; first [by right | by rewrite <- !app_assoc].
    + apply lang_empty_inv in H2 as ->.
      exists (U "http://"), x, c, t5, nl.
      split_and!; try done; first [by left | by rewrite <- !app_assoc].
  - intros (scheme & x & c & rest & nl & -> & Hs & Hx1 & Hx3 & Hc & Hrest & Hnl).
    exists (scheme ++ x :: c :: rest), nl. split_and!; [| |exact Hnl].
    { rewrite <- app_assoc. reflexivity. }
    assert (Htail : lang
      (Seq (Class (fun c0 => negb (is_py_space c0
                                   || existsb (N.eqb c0) [47; 36; 46; 63; 35]%N)))
        (Seq (Class (fun c0 => negb (N.eqb c0 10)))
             (Star (Class (fun c0 => negb (is_py_space c0))))))
      (x :: c :: rest)).
    { apply (lang_seq _ _ [x] (c :: rest)).
      - constructor. apply negb_true_iff, orb_false_iff. split; [done|].
        destruct (existsb (N.eqb x) [47; 36; 46; 63; 35]%N) eqn:He; [|done].
        apply existsb_exists in He as (y & Hy & Hxy).
        apply N.eqb_eq in Hxy as ->. done.
      - apply (lang_seq _ _ [c] rest).
        + constructor. by apply negb_true_iff, N.eqb_neq.
        + apply lang_star_class. eapply Forall_impl; [exact Hrest|].
          intros d Hd. by apply negb_true_iff. }
    destruct Hs as [->| ->].
    + apply (lang_seq _ _ (U "http") (U "://" ++ x :: c :: rest));
        [by apply lang_literal|].
      apply (lang_seq _ _ [] (U "://" ++ x :: c :: rest));
        [apply lang_or_r; constructor|].
      apply (lang_seq _ _ (U "://") (x :: c :: rest)); [by apply lang_literal|done].
    + apply (lang_seq _ _ (U "http") (U "s://" ++ x :: c :: rest));
        [by apply lang_literal|].
      apply (lang_seq _ _ [115%N] (U "://" ++ x :: c :: rest));
        [apply lang_or_l; by apply lang_char|].
      apply (lang_seq _ _ (U "://") (x :: c :: rest)); [by apply lang_literal|done].
Qed.

(** X21.  The addresses [validate] accepts are exactly the strings
    [local@domain.tld] with a non-empty [local] over letters, digits and
    [. _ % + -], a non-empty [domain] over letters, digits, [.] and [-], and
    a [tld] of two letters or more, optionally followed by one final line
    feed. *)
Theorem accepted_addresses (s : ustr) :
  email_pattern_match s = true
  <-> exists loc dom tld nl,
        s = loc ++ 64%N :: dom ++ 46%N :: tld ++ nl
        /\ loc <> [] /\ Forall (fun c => is_local_char c = true) loc
        /\ dom <> [] /\ Forall (fun c => is_domain_char c = true) dom
        /\ (2 <= length tld)%nat /\ Forall (fun c => is_letter c = true) tld
        /\ (nl = [] \/ nl = [10%N]).
Proof.
  unfold email_pattern_match. rewrite match_anchored_spec. unfold email_body.
  split.
  - intros (t & nl & -> & Ht & Hnl).
    apply lang_seq_inv in Ht as (s1 & t1 & -> & H1 & Ht).
    apply lang_seq_inv in Ht as (s2 & t2 & -> & H2 & Ht).
    apply lang_seq_inv in Ht as (s3 & t3 & -> & H3 & Ht).
    apply lang_seq_inv in Ht as (s4 & t4 & -> & H4 & H5).
    apply lang_plus_class in H1 as [? ?]. apply lang_char in H2 as ->.
    apply lang_plus_class in H3 as [? ?]. apply lang_char in H4 as ->.
    apply lang_two_or_more_class in H5 as [? ?].
    exists s1, s3, t4, nl. split_and!; try done.
    by rewrite <- !app_assoc.
  - intros (loc & dom & tld & nl & -> & ? & ? & ? & ? & ? & ? & Hnl).
    exists (loc ++ 64%N :: dom ++ 46%N :: tld), nl. split_and!; [| |exact Hnl].
    { rewrite <- app_assoc. cbn. by rewrite <- app_assoc. }
    apply lang_seq; [by apply lang_plus_class|].
    apply (lang_seq _ _ [64%N]); [by apply lang_char|].
    apply lang_seq; [by apply lang_plus_class|].
    apply (lang_seq _ _ [46%N]); [by apply lang_char|].
    by apply lang_two_or_more_class.
Qed.

End pattern_facts.

(** ** models.py: what [validate] reports *)

Module validate_facts.
Import re settings.

Lemma required_nil (s : ustr) (msg : string) : required s msg = [] <-> s <> [].
Proof. destruct s; cbn; split; intros H; done. Qed.

Lemma in_required (x s : ustr) (msg : string) :
  In x (required s msg) <-> s = [] /\ x = U msg.
Proof.
  destruct s; cbn.
  - split; [intros [<-|[]]; done|intros [_ ->]; by left].
  - split; [done|intros [? _]; done].
Qed.

Lemma reports_nil {A : Type} (p : A -> bool) (f : A -> ustr) (l : list A) :
  map f (List.filter (fun a => negb (p a)) l) = []
  <-> Forall (fun a => p a = true) l.
Proof.
  induction l as [|a l IH]; cbn.
  - split; [constructor|done].
  - destruct (p a) eqn:Hp; cbn.
    + rewrite IH. split; [by constructor|by inversion 1].
    + split; [done|]. inversion 1; congruence.
Qed.

Lemma in_reports {A : Type} (p : A -> bool) (f : A -> ustr) (l : list A) (x : ustr) :
  In x (map f (List.filter (fun a => negb (p a)) l))
  <-> exists a, f a = x /\ In a l /\ p a = false.
Proof.
  rewrite in_map_iff. split.
  - intros (a & Hf & Hin). apply filter_In in Hin as [Hin Hp].
    exists a. split_and!; [done|done|]. by destruct (p a).
  - intros (a & Hf & Hin & Hp). exists a. split; [done|].
    apply filter_In. split; [done|]. by rewrite Hp.
Qed.

(** The ninth character tells the messages about a format apart from the
    others, and the two kinds from each other. *)
Ltac clash H :=
  apply (f_equal (fun x : ustr => nth 8 x 0%N)) in H; vm_compute in H;
  discriminate H.

Lemma invalid_url_inj (u v : ustr) : invalid_url u = invalid_url v -> u = v.
Proof. unfold invalid_url. apply app_inv_head. Qed.

Lemma invalid_email_inj (a b : ustr) : invalid_email a = invalid_email b -> a = b.
Proof. unfold invalid_email. apply app_inv_head. Qed.

(** What [EmailConfig.validate] returns when e-mail is enabled, message by
    message. *)
Lemma in_email_validate (e : EmailConfig) (x : ustr) :
  In x (email_validate e)
  <-> enabled e = true
      /\ ((smtp_server e = []
           /\ x = U "SMTP server is required when email is enabled")
          \/ (smtp_port e = 0
              /\ x = U "SMTP port is required when email is enabled")
          \/ (username e = []
              /\ x = U "Username is required when email is enabled")
          \/ (password e = []
              /\ x = U "Password is required when email is enabled")
          \/ (from_address e = []
              /\ x = U "From address is required when email is enabled")
          \/ (to_addresses e = []
              /\ x = U "At least one recipient address is required when email is enabled")
          \/ (to_addresses e <> []
              /\ exists a, invalid_email a = x
                           /\ In a (from_address e :: to_addresses e)
                           /\ email_pattern_match a = false)).
Proof.
  unfold email_validate. destruct (enabled e).
  2:{ split; [intros []|intros [? _]; done]. }
  rewrite !in_app_iff, !in_required.
  assert (In x (if smtp_port e =? 0
                then [U "SMTP port is required when email is enabled"] else [])
          <-> smtp_port e = 0
              /\ x = U "SMTP port is required when email is enabled") as ->.
  { destruct (Z.eqb_spec (smtp_port e) 0) as [->|Hne]; cbn.
    - split; [intros [<-|[]]; done|intros [_ ->]; by left].
    - split; [done|intros [? _]; done]. }
  assert (In x match to_addresses e with
               | [] => [U "At least one recipient address is required when email is enabled"]
               | _ :: _ =>
                   map invalid_email
                     (List.filter (fun a => negb (email_pattern_match a))
                        (from_address e :: to_addresses e))
               end
          <-> (to_addresses e = []
               /\ x = U "At least one recipient address is required when email is enabled")
              \/ (to_addresses e <> []
                  /\ exists a, invalid_email a = x
                               /\ In a (from_address e :: to_addresses e)
                               /\ email_pattern_match a = false)) as ->.
  { destruct (to_addresses e) as [|t ts] eqn:Hto.
    - split.
      + intros [<-|[]]. by left.
      + intros [[_ ->]|[? _]]; [by left|done].
    - rewrite in_reports. split.
      + intros H. right. by split.
      + intros [[? _]|[_ H]]; done. }
  tauto.
Qed.

(** X22.  A configuration passes [validate] exactly when it has at least
    one URL and every URL matches the URL pattern, the database user and
    password are not empty and, if e-mail is enabled, the server, the port,
    the user name, the password and the sender are set, there is at least
    one recipient, and the sender and every recipient match the address
    pattern.  With e-mail disabled none of the mail settings is looked
    at. *)
Theorem accepted_configurations (c : Config) :
  validate c = []
  <-> urls c <> []
      /\ Forall (fun u => url_pattern_match u = true) (urls c)
      /\ db_user c <> [] /\ db_password c <> []
      /\ (enabled (email c) = true ->
          smtp_server (email c) <> [] /\ smtp_port (email c) <> 0
          /\ username (email c) <> [] /\ password (email c) <> []
          /\ from_address (email c) <> []
          /\ to_addresses (email c) <> []
          /\ Forall (fun a => email_pattern_match a = true)
                    (from_address (email c) :: to_addresses (email c))).
Proof.
  unfold validate, email_validate.
  rewrite !app_nil, !required_nil.
  assert (match urls c with
          | [] => [U "At least one URL is required"]
          | _ :: _ =>
              map invalid_url
                (List.filter (fun u => negb (url_pattern_match u)) (urls c))
          end = []
          <-> urls c <> []
              /\ Forall (fun u => url_pattern_match u = true) (urls c)) as ->.
  { destruct (urls c) as [|u us] eqn:Hu.
    - split; [done|intros [? _]; done].
    - rewrite reports_nil. split; [by intros ?|by intros [_ ?]]. }
  destruct (enabled (email c)).
  - rewrite !app_nil, !required_nil.
    assert ((if smtp_port (email c) =? 0
             then [U "SMTP port is required when email is enabled"] else []) = []
            <-> smtp_port (email c) <> 0) as ->.
    { destruct (Z.eqb_spec (smtp_port (email c)) 0) as [->|Hne];
        split; done. }
    assert (match to_addresses (email c) with
            | [] => [U "At least one recipient address is required when email is enabled"]
            | _ :: _ =>
                map invalid_email
                  (List.filter (fun a => negb (email_pattern_match a))
                     (from_address (email c) :: to_addresses (email c)))
            end = []
            <-> to_addresses (email c) <> []
                /\ Forall (fun a => email_pattern_match a = true)
                     (from_address (email c) :: to_addresses (email c))) as ->.
    { destruct (to_addresses (email c)) as [|t ts] eqn:Hto.
      - split; [done|intros [? _]; done].
      - rewrite reports_nil. split; [by intros ?|by intros [_ ?]]. }
    tauto.
  - split.
    + intros ((? & ?) & ? & ? & _). by split_and!.
    + intros (? & ? & ? & ? & _). by split_and!.
Qed.

(** X23.  [validate] reports a URL as badly formed exactly when the URL is
    in the list and does not match the URL pattern: no well-formed URL is
    reported, no badly formed one is passed over, and no other message can
    be taken for such a report. *)
Theorem reported_urls (c : Config) (u : ustr) :
  In (invalid_url u) (validate c)
  <-> In u (urls c) /\ url_pattern_match u = false.
Proof.
  unfold validate. rewrite !in_app_iff, !in_required, in_email_validate.
  split.
  - intros [H|[[_ H]|[[_ H]|[_ H]]]]; try clash H.
    + destruct (urls c) as [|u0 us] eqn:Hu.
      * destruct H as [H|[]]. symmetry in H. clash H.
      * apply in_reports in H as (a & Ha & Hin & Hp).
        apply invalid_url_inj in Ha as ->. done.
    + destruct H as [[_ H]|[[_ H]|[[_ H]|[[_ H]|[[_ H]|[[_ H]|[_ H]]]]]]];
        try clash H.
      destruct H as (a & H & _). symmetry in H. clash H.
  - intros [Hin Hp]. left.
    destruct (urls c) as [|u0 us] eqn:Hu; [destruct Hin|].
    apply in_reports. by exists u.
Qed.

(** X24.  [EmailConfig.validate] reports an address as badly formed exactly
    when e-mail is enabled, there is at least one recipient, and the
    address is the sender's or a recipient's and does not match the address
    pattern.  In particular the sender's address is not checked while the
    list of recipients is empty. *)
Theorem reported_addresses (e : EmailConfig) (a : ustr) :
  In (invalid_email a) (email_validate e)
  <-> enabled e = true /\ to_addresses e <> []
      /\ In a (from_address e :: to_addresses e)
      /\ email_pattern_match a = false.
Proof.
  rewrite in_email_validate. split.
  - intros [Hen H]. 
    destruct H as [[_ H]|[[_ H]|[[_ H]|[[_ H]|[[_ H]|[[_ H]|[Hto H]]]]]]];
      try clash H.
    destruct H as (b & Hb & Hin & Hp). apply invalid_email_inj in Hb as ->.
    done.
  - intros (Hen & Hto & Hin & Hp). split; [done|].
    do 6 right. split; [done|]. by exists a.
Qed.

(** X25.  With e-mail enabled and at least one recipient, an empty sender
    address is reported twice: as missing, and as an address of a bad
    format (the message then ends after the colon and the space). *)
Theorem empty_sender_is_reported_twice (e : EmailConfig)
    (Hen : enabled e = true) (Hfrom : from_address e = [])
    (Hto : to_addresses e <> []) :
  In (U "From address is required when email is enabled") (email_validate e)
  /\ In (U "Invalid email address format: ") (email_validate e).
Proof.
  rewrite !in_email_validate. split; (split; [done|]).
  - do 4 right. left. done.
  - do 6 right. split; [done|]. exists []. split_and!.
    + unfold invalid_email. by rewrite app_nil_r.
    + left. done.
    + reflexivity.
Qed.

Lemma empty_sender_is_reported_twice_witness :
  let e := mk_email_config true (U "smtp.example.org") 587 true
             (U "imap.example.org") 993 (U "user") (U "secret") []
             [U "reader@example.org"] (U "[Notifier]") in
  In (U "From address is required when email is enabled") (email_validate e)
  /\ In (U "Invalid email address format: ") (email_validate e).
Proof.
  intros e. apply (empty_sender_is_reported_twice e); [reflexivity|reflexivity|].
  discriminate.
Defined.

End validate_facts.

(** * The notification never reaches the mail server *)

Lemma quiet_unchanged {A} w0 (m : py A) :
  (forall w, trace (fst (m w)) = trace w) -> preserves (quiet_since w0) m.
Proof.
  intros Hm. apply quiet_step. intros w. exists [].
  by rewrite app_nil_r, Hm.
Qed.

Lemma quiet_session_scope w0 G config :
  process_keeps G config (quiet_since w0).
Proof.
  intros listings. unfold session_scope.
  apply preserves_bind; [by apply quiet_unchanged|intros _].
  apply preserves_try_finally; [|by apply quiet_unchanged].
  apply preserves_try_except.
  - apply preserves_bind; [apply quiet_process_listings|intros a].
    apply preserves_bind; [apply quiet_commit|intros _].
    apply preserves_ret.
  - intros e h Hh.
    destruct (is_SQLAlchemyError e); [|destruct (is_Exception e); [|done]];
      injection Hh as <-;
      (apply preserves_bind; [by apply quiet_emit|intros _]);
      (apply preserves_bind; [apply quiet_rollback|intros _]);
      apply preserves_raise.
Qed.

(** X26.  One call of [send_notification] never calls [send_email]: with an
    empty batch it returns at once; with any other batch the formatting of
    [HTML_EMAIL_TEMPLATE] raises [KeyError] on the style rule of line 52,
    the handler of lines 332-333 logs it, and the call returns normally,
    whatever the listings, the configuration and the state of the mail
    server. *)
Theorem send_notification_never_reaches_send_email
    (listings : list db_listing_entry) (config : Config) (w : World) :
  let run := send_notification listings config w in
  snd run = Return tt
  /\ new_events w (fst run)
     = match listings with [] => [] | _ => [template_error_log] end
  /\ dispatched (new_events w (fst run)) = []
  /\ smtp_script (fst run) = smtp_script w
  /\ store (fst run) = store w.
Proof.
  cbv zeta. rewrite send_notification_run.
  destruct listings as [|l ls]; cbn [fst snd].
  - unfold new_events. by rewrite drop_all.
  - rewrite new_events_add. by split_and!.
Qed.

(** X27.  No run of the control loop ever calls [send_email]: whatever [db]
    is bound to, whatever the configuration, the number of cycles, the
    table, the pages and the outcomes of lookups and commits, no e-mail is
    submitted. *)
Theorem no_mail_is_ever_sent (G : gmap string pyobj) (config : Config)
    (n : nat) (initial_run : bool) (w : World) :
  dispatched (new_events w (fst (main_loop G config n initial_run w))) = [].
Proof.
  apply quiet_dispatched.
  apply (preserves_main_loop G config (quiet_since w)).
  - intros ev Hev. apply quiet_emit. by destruct ev.
  - by apply quiet_unchanged.
  - apply quiet_session_scope.
  - apply quiet_refl.
Qed.
